(** * Dividend Hunter: metrics, ranking and snapshot cache

    A shallow embedding of [main.py]: the dividend-history analyzer
    ([calculate_dividend_growth], [calculate_consecutive_years], the stored
    history tail), the scoring engine ([calculate_safety_score],
    [calculate_rank_score]), the snapshot and historical stores
    ([save_snapshot], [load_cached_snapshot]), the refresh run
    ([refresh_data_background]) and the read path ([get_dividend_stocks],
    [apply_filters_and_sort]).

    Numbers.  Python floats are read as the numbers they denote: rationals
    ([Q]) in the scoring engine and in the records of the cache, where the
    code only compares, adds and multiplies; real numbers ([R]) in the growth
    rate, whose formula takes a fractional power.  Where the exact value of
    a double is at stake the growth rate is also given on binary64 floats
    ([Doubles]).  Infinities and NaN are outside this model.

    Strings.  A string is the sequence of its bytes in UTF-8.  [lower] and
    [upper] fold the letters A-Z and a-z, which is what [str.lower] and
    [str.upper] do on a string of ASCII characters ([isascii]); the
    properties that rest on the folding keep to such strings. *)

From Stdlib Require Import ZArith QArith Qminmax Lia Lqa Lra Reals Sorted Permutation.
From Stdlib Require Import Ascii String.
From Stdlib Require Floats.
From stdpp Require Import base option list sorting gmap strings.

(** ** Dividend series *)

Module Analyzer.

(** A calendar date, as the index entries of the provider's series carry it. *)
Record Date := mkDate { year : Z; month : Z; day : Z }.

(** Dates compare as Python's do: year, then month, then day. *)
Definition date_le (a b : Date) : Prop :=
  (year a < year b)%Z
  \/ (year a = year b /\ (month a < month b)%Z)
  \/ (year a = year b /\ month a = month b /\ (day a <= day b)%Z).

Section Series.
(** The amounts of a series: any type with an addition ([float] in the
    source). *)
Context {A : Type}.
Variable add : A -> A -> A.

(** [pd.Series] indexed by date: the events in the provider's order. *)
Definition Series := list (Date * A).

(** [Series.tail(n)] and [list[-n:]]: the last [n] entries, all of them
    when there are fewer. *)
Definition tail {B : Type} (n : nat) (l : list B) : list B :=
  drop (length l - n) l.

(** One step of [groupby(index.year).sum()]: the groups are kept sorted by
    year (pandas sorts group keys), each with the running sum of its
    amounts. *)
Fixpoint add_to_year (y : Z) (a : A) (g : list (Z * A)) : list (Z * A) :=
  match g with
  | [] => [(y, a)]
  | (y', s) :: g' =>
      if (y <? y')%Z then (y, a) :: g
      else if (y =? y')%Z then (y', add s a) :: g'
      else (y', s) :: add_to_year y a g'
  end.

(** [dividends.groupby(dividends.index.year).sum()]. *)
Definition groupby_year_sum (dividends : Series) : list (Z * A) :=
  fold_left (fun g e => add_to_year (year (fst e)) (snd e) g) dividends [].

(** [sorted(xs, reverse=True)] on integers: insertion into a descending
    list. *)
Fixpoint insert_desc (y : Z) (l : list Z) : list Z :=
  match l with
  | [] => [y]
  | x :: l' => if (x <? y)%Z then y :: l else x :: insert_desc y l'
  end.

Definition sorted_desc (l : list Z) : list Z :=
  fold_right insert_desc [] l.

(** The loop of [calculate_consecutive_years] after its first iteration:
    [prev] is [years_list[i-1]], [consecutive] the count so far; the loop
    breaks at the first year that is not [prev - 1]. *)
Fixpoint consecutive_loop (prev : Z) (rest : list Z) (consecutive : Z) : Z :=
  match rest with
  | [] => consecutive
  | y :: rest' =>
      if (prev - y =? 1)%Z then consecutive_loop y rest' (consecutive + 1)%Z
      else consecutive
  end.

(** [calculate_consecutive_years]. *)
Definition calculate_consecutive_years (dividends : Series) : Z :=
  match dividends with
  | [] => 0%Z
  | _ =>
      let years_with_dividends := groupby_year_sum dividends in
      let years_list := sorted_desc (map fst years_with_dividends) in
      match years_list with
      | [] => 0%Z
      | y0 :: rest => consecutive_loop y0 rest 1%Z
      end
  end.

(** The list comprehension of [calculate_dividend_metrics] that builds
    [dividend_history]: the entries of [dividends.tail(400)], in the order
    of the series.  (The source renders each date as an ISO string and each
    amount as a float; the entry is kept as the pair it renders.) *)
Definition dividend_history (dividends : Series) : list (Date * A) :=
  tail 400 dividends.

End Series.

(** The growth rate works on real amounts.  The power operator [**] belongs
    to the language runtime and is a parameter; on a positive base it is the
    real power [Rpower]. *)
Section Growth.
Variable pow : R -> R -> R.

(** [calculate_dividend_growth].  [recent_years.iloc[0]] and [iloc[-1]]
    exist because [recent_years] holds at least two years at that point. *)
Definition calculate_dividend_growth (dividends : list (Date * R)) : R :=
  if (length dividends <? 4)%nat then 0%R
  else
    let dividends_by_year := groupby_year_sum Rplus dividends in
    if (length dividends_by_year <? 2)%nat then 0%R
    else
      let recent_years := tail 5 dividends_by_year in
      match head recent_years, last recent_years with
      | Some (_, start_value), Some (_, end_value) =>
          let years := (Z.of_nat (length recent_years) - 1)%Z in
          if Rle_dec start_value 0 then 0%R
          else if (years <=? 0)%Z then 0%R
          else ((pow (end_value / start_value) (1 / IZR years) - 1) * 100)%R
      | _, _ => 0%R
      end.
End Growth.

(** *** The analyzer as the specification words it *)

(** A year has a payment when some event of the series falls in it. *)
Definition has_payment {A} (dividends : list (Date * A)) (y : Z) : Prop :=
  exists e, e ∈ dividends /\ year (fst e) = y.

(** The most recent year with a payment. *)
Definition most_recent_year {A} (dividends : list (Date * A)) (m : Z) : Prop :=
  has_payment dividends m /\ forall y, has_payment dividends y -> (y <= m)%Z.

(** The distinct calendar years of a series, earliest first. *)
Definition distinct_years {A} (dividends : list (Date * A)) (ys : list Z) : Prop :=
  StronglySorted Z.lt ys /\ forall y, y ∈ ys <-> has_payment dividends y.

(** A stored history is most recent first when its dates never increase, and
    oldest first when they never decrease. *)
Definition most_recent_first {A} (h : list (Date * A)) : Prop :=
  StronglySorted (fun a b => date_le (fst b) (fst a)) h.

Definition oldest_first {A} (h : list (Date * A)) : Prop :=
  StronglySorted (fun a b => date_le (fst a) (fst b)) h.

(** The amounts of the events of year [y], in the order of the series. *)
Definition amounts_in {A} (y : Z) (dividends : list (Date * A)) : list A :=
  map snd (filter (fun e => year (fst e) = y) dividends).

(** The sum of a group as the running addition builds it: nothing for an
    empty group, else the amounts added from the first on. *)
Definition sum_left {A} (add : A -> A -> A) (l : list A) : option A :=
  match l with
  | [] => None
  | a :: l' => Some (fold_left add l' a)
  end.

(** The sum a grouped series holds for year [y]. *)
Fixpoint assoc {A} (g : list (Z * A)) (y : Z) : option A :=
  match g with
  | [] => None
  | (y', s) :: g' => if (y =? y')%Z then Some s else assoc g' y
  end.

(** The sum of the amounts paid in year [y]. *)
Definition yearly_sum (dividends : list (Date * R)) (y : Z) : R :=
  fold_right Rplus 0%R (amounts_in y dividends).

End Analyzer.

(** ** The growth rate in double precision *)

Module Doubles.

Import Analyzer PrimFloat.

(** [calculate_dividend_growth] on binary64 amounts, with the operations of
    the source as IEEE 754 defines them; [1 / years] divides two integers
    into a double.  The power operator [**] is the C library's and is a
    parameter.  (The yearly sums are added from the first amount on; pandas
    adds them with a compensation term, which changes nothing where the
    partial sums are exact.) *)
Section GrowthDouble.
Variable pow : float -> float -> float.

End GrowthDouble.





End Doubles.

(** ** Scoring engine *)

Module Scoring.

Local Open Scope Q_scope.

Definition Qltb (x y : Q) : bool := negb (Qle_bool y x).

(** Python's [min(a, b)] and [max(a, b)]: the first argument unless the
    second is strictly smaller (larger). *)
Definition py_min (a b : Q) : Q := if Qltb b a then b else a.
Definition py_max (a b : Q) : Q := if Qltb a b then b else a.

(** [calculate_safety_score]. *)
Definition calculate_safety_score
    (payout_ratio : Q) (consecutive_years : Z) (growth_rate dividend_yield : Q) : Z :=
  let score := 50%Z in
  let score :=
    if Qeq_bool payout_ratio 0 then (score + 0)%Z
    else if Qltb payout_ratio 30 then (score + 25)%Z
    else if Qltb payout_ratio 50 then (score + 40)%Z
    else if Qltb payout_ratio 70 then (score + 30)%Z
    else if Qltb payout_ratio 90 then (score + 15)%Z
    else (score - 10)%Z in
  let score :=
    if (consecutive_years >=? 25)%Z then (score + 30)%Z
    else if (consecutive_years >=? 10)%Z then (score + 20)%Z
    else if (consecutive_years >=? 5)%Z then (score + 10)%Z
    else if (consecutive_years >=? 2)%Z then (score + 5)%Z
    else score in
  let score :=
    if Qltb 10 growth_rate then (score + 20)%Z
    else if Qltb 5 growth_rate then (score + 15)%Z
    else if Qltb 0 growth_rate then (score + 10)%Z
    else if Qltb (-5) growth_rate then (score + 0)%Z
    else (score - 10)%Z in
  let score :=
    if Qltb 0.10 dividend_yield then (score - 15)%Z
    else if Qltb 0.08 dividend_yield then (score - 5)%Z
    else score in
  Z.max 0 (Z.min 100 score).

(** [calculate_rank_score]. *)
Definition calculate_rank_score
    (dividend_yield growth_rate : Q) (safety_score consecutive_years : Z) : Q :=
  let yield_score := py_min (dividend_yield * 100 * 10) 100 in
  let growth_score := py_min (py_max (growth_rate + 10) 0 * 5) 100 in
  let track_score := Z.min (consecutive_years * 4) 100 in
  yield_score * 0.35 + growth_score * 0.25
  + inject_Z safety_score * 0.25 + inject_Z track_score * 0.15.

(** [categorize_stock]. *)
Definition categorize_stock (yield_pct growth_rate : Q) (safety_score : Z) : string :=
  if Qle_bool 0.03 yield_pct && (safety_score >=? 50)%Z then "immediate"
  else if Qltb yield_pct 0.03 && Qltb 7 growth_rate then "longshot"
  else "balanced".

(** *** The score tables of the specification *)

(** Payout ratio (%): 0 gives +0, below 30 gives +25, [30,50) gives +40,
    [50,70) gives +30, [70,90) gives +15, 90 and above gives -10. *)
Inductive payout_row (p : Q) : Z -> Prop :=
| payout_none : p == 0 -> payout_row p 0
| payout_low : ~ p == 0 -> p < 30 -> payout_row p 25
| payout_ideal : 30 <= p -> p < 50 -> payout_row p 40
| payout_fair : 50 <= p -> p < 70 -> payout_row p 30
| payout_stretched : 70 <= p -> p < 90 -> payout_row p 15
| payout_high : 90 <= p -> payout_row p (-10).

(** Consecutive years: +30 from 25, +20 from 10, +10 from 5, +5 from 2,
    else +0. *)
Inductive years_row (c : Z) : Z -> Prop :=
| years_25 : (25 <= c)%Z -> years_row c 30
| years_10 : (10 <= c < 25)%Z -> years_row c 20
| years_5 : (5 <= c < 10)%Z -> years_row c 10
| years_2 : (2 <= c < 5)%Z -> years_row c 5
| years_else : (c < 2)%Z -> years_row c 0.

(** Growth rate (%): +20 above 10, +15 above 5, +10 above 0, +0 above -5,
    -10 at -5 and below. *)
Inductive growth_row (g : Q) : Z -> Prop :=
| growth_10 : 10 < g -> growth_row g 20
| growth_5 : 5 < g -> g <= 10 -> growth_row g 15
| growth_0 : 0 < g -> g <= 5 -> growth_row g 10
| growth_flat : -5 < g -> g <= 0 -> growth_row g 0
| growth_cut : g <= -5 -> growth_row g (-10).

(** Dividend yield (fraction): -15 above 0.10, -5 above 0.08, else +0. *)
Inductive yield_row (y : Q) : Z -> Prop :=
| yield_10 : 0.10 < y -> yield_row y (-15)
| yield_8 : 0.08 < y -> y <= 0.10 -> yield_row y (-5)
| yield_else : y <= 0.08 -> yield_row y 0.

(** The final clamp to [0,100]. *)
Definition clamp (z : Z) : Z :=
  if (z <? 0)%Z then 0%Z else if (100 <? z)%Z then 100%Z else z.

(** The rank formula of the specification. *)
Definition rank_spec (yieldFraction growthRate : Q) (safetyScore consecutiveYears : Z) : Q :=
  let yieldScore := Qmin (yieldFraction * 1000) 100 in
  let growthScore := Qmin (Qmax (growthRate + 10) 0 * 5) 100 in
  let trackScore := Qmin (inject_Z consecutiveYears * 4) 100 in
  0.35 * yieldScore + 0.25 * growthScore
  + 0.25 * inject_Z safetyScore + 0.15 * trackScore.

End Scoring.

(** ** Snapshot cache, historical store and read path *)

Module Cache.

(** *** Exceptions *)

Inductive exn := KeyError | TypeError | AttributeError.

(** A computation that returns or raises. *)
Inductive result (A : Type) : Type :=
| Ok (a : A)
| Raise (e : exn).
Arguments Ok {A} a.
Arguments Raise {A} e.

#[global] Instance result_ret : MRet result := fun A a => Ok a.
#[global] Instance result_bind : MBind result := fun A B f m =>
  match m with Ok a => f a | Raise e => Raise e end.

(** A list comprehension with a condition that may raise. *)
Fixpoint filterM {A} (p : A -> result bool) (l : list A) : result (list A) :=
  match l with
  | [] => Ok []
  | x :: l' =>
      b ← p x;
      rest ← filterM p l';
      Ok (if b : bool then x :: rest else rest)
  end.

(** A [for] loop that threads a state and may raise. *)
Fixpoint foldM {A S} (f : S -> A -> result S) (s : S) (l : list A) : result S :=
  match l with
  | [] => Ok s
  | x :: l' => s' ← f s x; foldM f s' l'
  end.

(** *** Records *)

(** The values of a record: [None], a number, a string, or the stored
    dividend history (a list of date/amount entries). *)
Inductive value :=
| VNone
| VNum (q : Q)
| VStr (s : string)
| VList (l : list (string * Q)).

(** A record ([Dict[str, Any]]). *)
Abbreviation Stock := (gmap string value).

(** [stock[key]]. *)
Definition getitem (stock : Stock) (key : string) : result value :=
  match stock !! key with
  | Some v => Ok v
  | None => Raise KeyError
  end.

(** Timestamps are microseconds on the local clock; [strftime("%Y-%m-%d")]
    names the day a timestamp falls in. *)
Definition hours (h : Z) : Z := (h * 3600 * 1000000)%Z.
Definition day_of (t : Z) : Z := (t / hours 24)%Z.

Record Snapshot := mkSnapshot { fetchedAt : Z; stocks : list Stock }.

Record HistoricalPoint := mkPoint {
  hp_date : Z;
  hp_yield : value;
  hp_price : value;
  hp_growthRate : value;
  hp_safetyScore : value
}.

Abbreviation Historical := (gmap string (list HistoricalPoint)).

(** The two files under [DATA_DIR]; [None] when a file does not exist. *)
Record Store := mkStore {
  snapshot_file : option Snapshot;
  historical_file : option Historical
}.

(** [load_historical_data]. *)
Definition load_historical_data (st : Store) : Historical :=
  match historical_file st with
  | Some h => h
  | None => ∅
  end.

(** The body of the loop of [save_snapshot] for one record.  (The ticker of
    a record is the string the builder was called with; a record whose ticker
    is not a string is not modelled as a key and raises.) *)
Definition add_point (today : Z) (historical : Historical) (stock : Stock)
    : result Historical :=
  t ← getitem stock "ticker";
  match t with
  | VStr ticker =>
      let historical :=
        match historical !! ticker with
        | Some _ => historical
        | None => <[ticker := []]> historical
        end in
      y ← getitem stock "dividendYield";
      p ← getitem stock "price";
      g ← getitem stock "growthRate";
      s ← getitem stock "safetyScore";
      let series := default [] (historical !! ticker) ++ [mkPoint today y p g s] in
      Ok (<[ticker := Analyzer.tail 30 series]> historical)
  | _ => Raise TypeError
  end.

(** [save_snapshot], with the two readings of the clock it takes.  The
    snapshot file is written first; the historical file is written after the
    loop, so an exception in the loop leaves it as it was. *)
Definition save_snapshot (now_snapshot now_today : Z) (all_stocks : list Stock)
    (st : Store) : Store * result () :=
  let snapshot := mkSnapshot now_snapshot all_stocks in
  let st1 := mkStore (Some snapshot) (historical_file st) in
  match foldM (add_point (day_of now_today)) (load_historical_data st1) all_stocks with
  | Ok historical => (mkStore (Some snapshot) (Some historical), Ok ())
  | Raise e => (st1, Raise e)
  end.

(** [load_cached_snapshot]. *)
Definition load_cached_snapshot (now : Z) (st : Store) : option Snapshot :=
  match snapshot_file st with
  | None => None
  | Some snapshot =>
      if (now - fetchedAt snapshot <? hours 24)%Z then Some snapshot else None
  end.


(** *** Refresh *)

(** The keys of the record [calculate_dividend_metrics] returns, after
    ["ticker"]. *)
Definition metric_keys : list string :=
  ["name"; "sector"; "industry"; "price"; "dividendYield"; "annualDividend";
   "payoutRatio"; "exDividendDate"; "paymentFrequency"; "consecutiveYears";
   "growthRate"; "safetyScore"; "rankScore"; "dividendHistory";
   "fiftyTwoWeekHigh"; "fiftyTwoWeekLow"; "marketCap"; "peRatio"; "category";
   "fetchedAt"].

(** The record literal of [calculate_dividend_metrics]: the ticker it was
    called with and the value computed for each other key. *)
Definition metrics_record (ticker : string) (fields : string -> value) : Stock :=
  list_to_map (("ticker", VStr ticker) :: map (fun k => (k, fields k)) metric_keys).

(** [SP500_TICKERS]. *)
Definition SP500_TICKERS : list string :=
  [
   "AAPL"; "MSFT"; "AMZN"; "NVDA"; "GOOGL"; "META"; "GOOG"; "BRK.B"; "LLY"; "AVGO";
   "JPM"; "V"; "UNH"; "XOM"; "TSLA"; "MA"; "JNJ"; "PG"; "COST"; "HD";
   "MRK"; "ABBV"; "CVX"; "CRM"; "BAC"; "AMD"; "KO"; "NFLX"; "PEP"; "WMT";
   "TMO"; "ADBE"; "LIN"; "ACN"; "MCD"; "DIS"; "CSCO"; "ABT"; "WFC"; "PM";
   "DHR"; "QCOM"; "CAT"; "VZ"; "INTC"; "INTU"; "TXN"; "IBM"; "GE"; "CMCSA";
   "NEE"; "AMGN"; "PFE"; "AMAT"; "NOW"; "ISRG"; "UNP"; "RTX"; "SPGI"; "GS";
   "HON"; "LOW"; "BKNG"; "BLK"; "T"; "ELV"; "AXP"; "COP"; "PLD"; "VRTX";
   "SYK"; "C"; "ETN"; "MDLZ"; "TJX"; "PANW"; "BSX"; "SCHW"; "MMC"; "ADP";
   "ADI"; "SBUX"; "LRCX"; "GILD"; "MO"; "CB"; "FI"; "BMY"; "DE"; "TMUS";
   "CVS"; "CI"; "SO"; "CME"; "ZTS"; "DUK"; "BDX"; "REGN"; "CL"; "EOG";
   "PGR"; "SLB"; "EQIX"; "ITW"; "SNPS"; "APD"; "NOC"; "MCK"; "ICE"; "MU";
   "PNC"; "CSX"; "CDNS"; "TT"; "AON"; "PYPL"; "SHW"; "WM"; "USB"; "ORLY";
   "FCX"; "PSX"; "MSI"; "EMR"; "MCO"; "CTAS"; "CMG"; "MMM"; "GD"; "OXY";
   "HLT"; "NSC"; "CCI"; "HUM"; "KLAC"; "PH"; "MAR"; "APH"; "PCAR"; "AJG";
   "ROP"; "AZO"; "CARR"; "TDG"; "NEM"; "AEP"; "ECL"; "TRV"; "WELL"; "SPG";
   "AFL"; "SRE"; "MCHP"; "PSA"; "FTNT"; "MET"; "HES"; "EW"; "F"; "O";
   "COF"; "TEL"; "AIG"; "KMB"; "MSCI"; "D"; "NUE"; "PAYX"; "KMI"; "CNC";
   "BK"; "ROST"; "AMP"; "NXPI"; "JCI"; "ALL"; "MNST"; "DLR"; "GWW"; "FDX";
   "OKE"; "PRU"; "IDXX"; "LHX"; "IQV"; "PEG"; "DHI"; "A"; "PCG"; "VLO";
   "KR"; "CTSH"; "KDP"; "OTIS"; "GM"; "STZ"; "CMI"; "FAST"; "GEHC"; "RSG";
   "YUM"; "AME"; "ODFL"; "CPRT"; "EA"; "HWM"; "XEL"; "GIS"; "VRSK"; "PWR";
   "FANG"; "WEC"; "EXC"; "BKR"; "BIIB"; "IT"; "CBRE"; "DD"; "CTVA"; "VICI";
   "HPQ"; "EXR"; "VMC"; "ED"; "EFX"; "MLM"; "ACGL"; "DXCM"; "ON"; "WAB";
   "RCL"; "AVB"; "ANSS"; "DG"; "EBAY"; "HAL"; "CAH"; "AWK"; "RMD"; "XYL";
   "HIG"; "WTW"; "KEYS"; "EIX"; "GRMN"; "LULU"; "DAL"; "KHC"; "DVN"; "TTWO";
   "MTD"; "HPE"; "DOW"; "ROK"; "WMB"; "PPG"; "WBD"; "GPN"; "IFF"; "CHD";
   "CSGP"; "CDW"; "TSCO"; "URI"; "DLTR"; "APTV"; "ETR"; "EQR"; "FTV"; "TROW";
   "NVR"; "ULTA"; "SBAC"; "STT"; "HSY"; "BR"; "ILMN"; "DTE"; "MTB"; "SYY";
   "FITB"; "TYL"; "DOV"; "MOH"; "PPL"; "ZBH"; "AEE"; "FE"; "RF"; "CLX";
   "K"; "LYB"; "NTAP"; "ES"; "LVS"; "IRM"; "ATO"; "DRI"; "MKC"; "VLTO";
   "STLD"; "HBAN"; "TDY"; "SW"; "BALL"; "CBOE"; "WAT"; "WRB"; "LH"; "NTRS";
   "NRG"; "ALGN"; "HOLX"; "COO"; "BAX"; "EXPD"; "DGX"; "WDC"; "CNP"; "GPC";
   "STE"; "MAA"; "PKG"; "J"; "CF"; "STX"; "LDOS"; "PFG"; "TRGP"; "BBY";
   "ESS"; "FDS"; "SYF"; "CINF"; "OMC"; "NI"; "ARE"; "PTC"; "VRSN"; "MAS";
   "CMS"; "JBHT"; "IP"; "TSN"; "LUV"; "ZBRA"; "KEY"; "TXT"; "AMCR"; "EG";
   "CFG"; "DPZ"; "L"; "AES"; "HUBB"; "EVRG"; "POOL"; "AKAM"; "GEN"; "KIM";
   "SWK"; "AVY"; "RVTY"; "BRO"; "LKQ"; "UDR"; "SWKS"; "EMN"; "CE"; "CAG";
   "TECH"; "LNT"; "CPT"; "JKHY"; "HST"; "APA"; "REG"; "TPR"; "SNA"; "ALB";
   "IPG"; "WRK"; "TAP"; "GL"; "CPB"; "CHRW"; "BXP"; "NDAQ"; "ALLE"; "AIZ";
   "BG"; "HSIC"; "WYNN"; "FFIV"; "PNR"; "ROL"; "INCY"; "MGM"; "MOS"; "MKTX";
   "CRL"; "HRL"; "IEX"; "VTRS"; "BWA"; "QRVO"; "BBWI"; "PAYC"; "NDSN"; "MTCH";
   "ETSY"; "WBA"; "PARA"; "AAL"; "HAS"; "FRT"; "RHI"; "GNRC"; "BIO"; "CZR";
   "CTLT"; "VFC"; "PNW"; "WHR"; "ZION"; "XRAY"; "NWS"; "SEE"; "HII"; "FMC";
   "NWSA"; "DVA"; "MHK"; "IVZ"; "LUMN"
  ].

Definition batch_size : nat := 20.

(** [range(0, n, batch_size)]. *)
Definition batch_starts (n : nat) : list nat :=
  map (fun k => k * batch_size)%nat (seq 0 ((n + batch_size - 1) / batch_size)).

Section Refresh.
(** What the market data provider and the analysis yield for a ticker: the
    values of the record, or nothing when the builder returns [None] (no
    yield, no history, or a failed call). *)
Variable provider : string -> option (string -> value).

(** [calculate_dividend_metrics], as the refresh run sees it. *)
Definition calculate_dividend_metrics (ticker : string) : option Stock :=
  metrics_record ticker <$> provider ticker.


(** The batches of [refresh_data_background]: each batch is
    [tickers[i:i+batch_size]], its results are gathered and the ones that
    are not [None] extend [all_stocks]. *)
Definition aggregate (tickers : list string) : list Stock :=
  flat_map
    (fun i => omap calculate_dividend_metrics (take batch_size (drop i tickers)))
    (batch_starts (length tickers)).

(** [refresh_data_background] as the background task runs it
    ([return_data] false). *)
Definition refresh_data_background (tickers : list string)
    (now_snapshot now_today : Z) (st : Store) : Store * result () :=
  let all_stocks := aggregate tickers in
  match all_stocks with
  | _ :: _ => save_snapshot now_snapshot now_today all_stocks st
  | [] => (st, Ok ())
  end.
End Refresh.

(** *** Read path *)

Record Response := mkResponse {
  r_stocks : list Stock;
  r_total : nat;
  r_fetchedAt : option Z;
  r_status : option string
}.

(** The query parameters of [get_dividend_stocks]. *)
Record Query := mkQuery {
  category : option string;
  min_yield : option Q;
  max_yield : option Q;
  min_safety : option Z;
  sector : option string;
  sort_by : string;
  limit : Z
}.

(** [str.lower] on ASCII letters. *)
Definition lower_ascii (c : ascii) : ascii :=
  let n := nat_of_ascii c in
  if (65 <=? n)%nat && (n <=? 90)%nat then ascii_of_nat (n + 32) else c.

Fixpoint lower (s : string) : string :=
  match s with
  | EmptyString => EmptyString
  | String c s' => String (lower_ascii c) (lower s')
  end.

(** [v == s] for a string [s]. *)
Definition eq_str (v : value) (s : string) : bool :=
  match v with
  | VStr s' => String.eqb s' s
  | _ => false
  end.

(** [v >= x] and [v <= x] for a number [x]. *)
Definition ge_num (v : value) (x : Q) : result bool :=
  match v with
  | VNum q => Ok (Qle_bool x q)
  | _ => Raise TypeError
  end.

Definition le_num (v : value) (x : Q) : result bool :=
  match v with
  | VNum q => Ok (Qle_bool q x)
  | _ => Raise TypeError
  end.

(** [v.lower() == s.lower()]. *)
Definition eq_lower (v : value) (s : string) : result bool :=
  match v with
  | VStr s' => Ok (String.eqb (lower s') (lower s))
  | _ => Raise AttributeError
  end.

(** Truth value of an optional string argument ([if category:]). *)
Definition given (o : option string) : option string :=
  match o with
  | Some s => if String.eqb s "" then None else Some s
  | None => None
  end.

(** The five filters of [apply_filters_and_sort], in order. *)
Definition apply_filters (q : Query) (stocks : list Stock) : result (list Stock) :=
  filtered ← match given (category q) with
             | Some c => filterM (fun s => v ← getitem s "category"; Ok (eq_str v c)) stocks
             | None => Ok stocks
             end;
  filtered ← match min_yield q with
             | Some m => filterM (fun s => v ← getitem s "dividendYield"; ge_num v m) filtered
             | None => Ok filtered
             end;
  filtered ← match max_yield q with
             | Some m => filterM (fun s => v ← getitem s "dividendYield"; le_num v m) filtered
             | None => Ok filtered
             end;
  filtered ← match min_safety q with
             | Some m => filterM (fun s => v ← getitem s "safetyScore"; ge_num v (inject_Z m)) filtered
             | None => Ok filtered
             end;
  match given (sector q) with
  | Some c => filterM (fun s => v ← getitem s "sector"; eq_lower v c) filtered
  | None => Ok filtered
  end.

(** Truth value of a record value. *)
Definition truthy (v : value) : bool :=
  match v with
  | VNone => false
  | VNum q => negb (Qeq_bool q 0)
  | VStr s => negb (String.eqb s "")
  | VList l => match l with [] => false | _ => true end
  end.

(** The sort key [x.get(sort_by, 0) or 0]. *)
Definition sort_key (sort_by : string) (x : Stock) : value :=
  match x !! sort_by with
  | Some v => if truthy v then v else VNum 0
  | None => VNum 0
  end.

(** [a < b] on lists of history entries: the first entries that differ are
    dictionaries, which do not compare; without such a pair the shorter list
    is the smaller. *)
Fixpoint list_lt (a b : list (string * Q)) : result bool :=
  match a, b with
  | [], [] => Ok false
  | [], _ :: _ => Ok true
  | _ :: _, [] => Ok false
  | x :: a', y :: b' =>
      if String.eqb (fst x) (fst y) && Qeq_bool (snd x) (snd y)
      then list_lt a' b' else Raise TypeError
  end.

(** [a < b] on sort keys. *)
Definition py_lt (a b : value) : result bool :=
  match a, b with
  | VNum x, VNum y => Ok (Scoring.Qltb x y)
  | VStr x, VStr y => Ok (String.ltb x y)
  | VList x, VList y => list_lt x y
  | _, _ => Raise TypeError
  end.

(** [reverse = sort_by not in ["ticker", "name"]]. *)
Definition reverse_order (sort_by : string) : bool :=
  negb (String.eqb sort_by "ticker" || String.eqb sort_by "name").

(** [list.sort(key=..., reverse=...)]: a stable sort on the keys, which uses
    only [<]; records with equal keys keep their order in both directions. *)
Fixpoint insert_sorted (reverse : bool) (key : Stock -> value) (x : Stock)
    (l : list Stock) : result (list Stock) :=
  match l with
  | [] => Ok [x]
  | y :: l' =>
      before ← (if reverse then py_lt (key x) (key y) else py_lt (key y) (key x));
      if before : bool then rest ← insert_sorted reverse key x l'; Ok (y :: rest)
      else Ok (x :: l)
  end.

Fixpoint sort (reverse : bool) (key : Stock -> value) (l : list Stock)
    : result (list Stock) :=
  match l with
  | [] => Ok []
  | x :: l' => sorted ← sort reverse key l'; insert_sorted reverse key x sorted
  end.

(** [l[:limit]]. *)
Definition slice_to {A} (limit : Z) (l : list A) : list A :=
  if (0 <=? limit)%Z then take (Z.to_nat limit) l
  else take (length l - Z.to_nat (- limit)) l.

(** [apply_filters_and_sort], with the reading of the clock it takes. *)
Definition apply_filters_and_sort (stocks : list Stock) (q : Query) (now : Z)
    : result Response :=
  filtered ← apply_filters q stocks;
  filtered ← sort (reverse_order (sort_by q)) (sort_key (sort_by q)) filtered;
  Ok (mkResponse (slice_to (limit q) filtered) (length filtered) (Some now) None).

(** The payload returned when there is no usable snapshot. *)
Definition needs_initialization : Response :=
  mkResponse [] 0 None (Some "needs_initialization").

(** [get_dividend_stocks]: the response and whether [refresh_data_background]
    was added to the background tasks.  [now_load] is the clock as
    [load_cached_snapshot] reads it, [now_reply] as [apply_filters_and_sort]
    does.  A loaded snapshot is a dictionary with two keys and so is true in
    [if cached]; the three [if]s of the source then leave these cases. *)
Definition get_dividend_stocks (force_refresh : bool) (q : Query)
    (now_load now_reply : Z) (st : Store) : bool * result Response :=
  let cached := load_cached_snapshot now_load st in
  match cached with
  | Some snapshot =>
      if negb force_refresh
      then (false, apply_filters_and_sort (stocks snapshot) q now_reply)
      else (true, apply_filters_and_sort (stocks snapshot) q now_reply)
  | None => (false, Ok needs_initialization)
  end.

(** *** The read path as the specification words it *)

(** No snapshot was ever fetched; the snapshot is 24 hours old or more. *)
Definition never_fetched (st : Store) : Prop := snapshot_file st = None.

Definition stale (now : Z) (st : Store) : Prop :=
  exists snapshot, snapshot_file st = Some snapshot
    /\ (hours 24 <= now - fetchedAt snapshot)%Z.

(** The read path tells a snapshot never fetched from a stale one. *)
Definition read_path_distinguishes : Prop :=
  forall force_refresh q now_load now_reply st_absent st_stale,
    never_fetched st_absent -> stale now_load st_stale ->
    get_dividend_stocks force_refresh q now_load now_reply st_absent
    <> get_dividend_stocks force_refresh q now_load now_reply st_stale.

(** The order of sort keys: numbers by size, strings lexicographically,
    histories by prefix; keys of different kinds are not ordered. *)
Definition value_le (a b : value) : Prop :=
  match a, b with
  | VNum x, VNum y => (x <= y)%Q
  | VStr x, VStr y => String.ltb y x = false
  | VList x, VList y => list_lt y x = Ok false
  | _, _ => False
  end.

Definition in_order (reverse : bool) (a b : value) : Prop :=
  if reverse then value_le b a else value_le a b.


(** Sample records and queries. *)
Definition cut_stock : Stock :=
  {[ "ticker" := VStr "CUT"; "growthRate" := VNum (-3) ]}.
Definition bare_stock : Stock := {[ "ticker" := VStr "BARE" ]}.
Definition named_stock : Stock :=
  {[ "ticker" := VStr "NAMED"; "name" := VStr "Acme" ]}.
Definition by_field (f : string) : Query :=
  mkQuery None None None None None f 100.

End Cache.

(** ** Payment cadence *)

Module Cadence.

(** The index of a dividend series as [determine_payment_frequency] uses it:
    the instant of each event, in microseconds.  The difference of two
    instants has [.days] whole days. *)
Definition day_len : Z := Cache.hours 24.

(** [DatetimeIndex.sort_values()]: insertion into an ascending list. *)
Fixpoint insert_asc (t : Z) (l : list Z) : list Z :=
  match l with
  | [] => [t]
  | x :: l' => if (t <? x)%Z then t :: l else x :: insert_asc t l'
  end.

Definition sort_values (l : list Z) : list Z := fold_right insert_asc [] l.

(** [[(dates[i+1] - dates[i]).days for i in range(len(dates)-1)]]. *)
Fixpoint gaps (dates : list Z) : list Z :=
  match dates with
  | [] => []
  | a :: rest =>
      match rest with
      | [] => []
      | b :: _ => ((b - a) / day_len)%Z :: gaps rest
      end
  end.

(** [sum(diffs)]. *)
Definition sum (l : list Z) : Z := fold_right Z.add 0%Z l.

(** The classification of the mean gap. *)
Definition classify (avg_diff : Q) : string :=
  if Scoring.Qltb avg_diff 45 then "Monthly"
  else if Scoring.Qltb avg_diff 100 then "Quarterly"
  else if Scoring.Qltb avg_diff 200 then "Semi-Annual"
  else "Annual".

(** [determine_payment_frequency], on the index of the series. *)
Definition determine_payment_frequency (index : list Z) : string :=
  if (length index <? 2)%nat then "Unknown"
  else
    let dates := sort_values index in
    if (length dates <? 2)%nat then "Unknown"
    else
      let diffs := gaps dates in
      let avg_diff := (inject_Z (sum diffs) / inject_Z (Z.of_nat (length diffs)))%Q in
      classify avg_diff.

(** Events every [d] whole days from [t0] on, [n] of them. *)
Definition every_days (t0 d : Z) (n : nat) : list Z :=
  map (fun k => (t0 + Z.of_nat k * (d * day_len))%Z) (seq 0 n).

End Cadence.

(** ** The builder: guards, scoring calls and failure *)

Module Builder.

Import Analyzer Scoring Cache.

(** The entries of [info] the builder computes with, each a number, [None]
    or missing; [exDividendDate] is a Unix timestamp. *)
Record Info := mkInfo {
  dividendYield : option Q;
  payoutRatio : option Q;
  exDividendDate : option Z
}.

(** What [calculate_dividend_metrics] derives from the series and the
    scores, before any rounding. *)
Record Scored := mkScored {
  sc_exDividendDate : value;
  sc_consecutiveYears : Z;
  sc_safetyScore : Z;
  sc_rankScore : Q;
  sc_category : string;
  sc_dividendHistory : list (Date * Q)
}.

(** [info.get(key, 0) or 0] for a key that holds a number, [None] or is
    missing. *)
Definition or_zero (v : option Q) : Q :=
  match v with
  | Some q => q
  | None => 0%Q
  end.

Section Build.
(** [datetime.fromtimestamp(t).strftime("%Y-%m-%d")]: the day in the local
    time zone, or the exception the runtime raises for a timestamp out of
    its range. *)
Variable fromtimestamp : Z -> result string.

(** The body of the [try] of [calculate_dividend_metrics].  [info] and
    [dividends] are what [stock.info] and [stock.dividends] give, or the
    exception the provider raises; [growth_rate] is the value
    [calculate_dividend_growth] returned, read as a rational.  The yield and
    the payout ratio reach the scores as [info] holds them. *)
Definition calculate_dividend_metrics_body (info : result Info)
    (dividends : result (list (Date * Q))) (growth_rate : Q)
    : result (option Scored) :=
  info ← info;
  let dividend_yield := or_zero (dividendYield info) in
  if Qeq_bool dividend_yield 0 then Ok None
  else
    dividends ← dividends;
    match dividends with
    | [] => Ok None
    | _ :: _ =>
        let history := dividend_history dividends in
        let payout_ratio := or_zero (payoutRatio info) in
        let consecutive_years := calculate_consecutive_years Qplus dividends in
        ex_dividend_date ←
          match exDividendDate info with
          | Some t =>
              if (t =? 0)%Z then Ok (VNum 0)
              else day ← fromtimestamp t; Ok (VStr day)
          | None => Ok VNone
          end;
        let safety_score :=
          calculate_safety_score payout_ratio consecutive_years growth_rate
            dividend_yield in
        let rank_score :=
          calculate_rank_score dividend_yield growth_rate safety_score
            consecutive_years in
        Ok (Some (mkScored ex_dividend_date consecutive_years safety_score
                    rank_score
                    (categorize_stock dividend_yield growth_rate safety_score)
                    history))
    end.

(** [calculate_dividend_metrics]: [except Exception] turns every exception
    of the body into [None]. *)
Definition calculate_dividend_metrics_scores (info : result Info)
    (dividends : result (list (Date * Q))) (growth_rate : Q) : option Scored :=
  match calculate_dividend_metrics_body info dividends growth_rate with
  | Ok record => record
  | Raise _ => None
  end.
End Build.

End Builder.

(** ** The other endpoints and the seeding script *)

Module Endpoints.

Import Cache.

(** What an endpoint does: it replies, reports HTTP 404, or fails with an
    exception. *)
Inductive reply (A : Type) : Type :=
| Found (a : A)
| NotFound (detail : string)
| Failed (e : exn).
Arguments Found {A} a.
Arguments NotFound {A} detail.
Arguments Failed {A} e.

(** [str.upper] on a string of ASCII characters: the letters a-z are
    folded, every other character is kept. *)
Definition upper_ascii (c : ascii) : ascii :=
  let n := nat_of_ascii c in
  if (97 <=? n)%nat && (n <=? 122)%nat then ascii_of_nat (n - 32) else c.

Fixpoint upper (s : string) : string :=
  match s with
  | EmptyString => EmptyString
  | String c s' => String (upper_ascii c) (upper s')
  end.

(** [get_stock_trends]: the ticker as looked up and its series. *)
Definition get_stock_trends (ticker : string) (st : Store)
    : reply (string * list HistoricalPoint) :=
  let ticker := upper ticker in
  let historical := load_historical_data st in
  match historical !! ticker with
  | None => NotFound ("No historical data for " ++ ticker)
  | Some trends => Found (ticker, trends)
  end.

(** [get_stock_detail]: the fresh record and the list stored in it under
    ["historicalTrend"]. *)
Definition get_stock_detail (provider : string -> option (string -> value))
    (ticker : string) (st : Store) : reply (Stock * list HistoricalPoint) :=
  let ticker := upper ticker in
  match calculate_dividend_metrics provider ticker with
  | None => NotFound ("No dividend data found for " ++ ticker)
  | Some data =>
      let historical := load_historical_data st in
      Found (data, default [] (historical !! ticker))
  end.

(** [a == b] on record values. *)
Definition py_eq (a b : value) : bool :=
  match a, b with
  | VNone, VNone => true
  | VNum x, VNum y => Qeq_bool x y
  | VStr x, VStr y => String.eqb x y
  | _, _ => false
  end.

(** [set(...)] of scalar values, listed by first occurrence: a list is not
    hashable and raises. *)
Fixpoint to_set (l : list value) : result (list value) :=
  match l with
  | [] => Ok []
  | v :: l' =>
      match v with
      | VList _ => Raise TypeError
      | _ =>
          rest ← to_set l';
          Ok (v :: filter (fun w => py_eq v w = false) rest)
      end
  end.

(** [list.sort()] on values. *)
Fixpoint insert_value (x : value) (l : list value) : result (list value) :=
  match l with
  | [] => Ok [x]
  | y :: l' =>
      before ← py_lt y x;
      if before : bool then rest ← insert_value x l'; Ok (y :: rest)
      else Ok (x :: l)
  end.

Fixpoint sort_list (l : list value) : result (list value) :=
  match l with
  | [] => Ok []
  | x :: l' => sorted ← sort_list l'; insert_value x sorted
  end.

(** The generator of [get_sectors]:
    [s["sector"] for s in stocks if s.get("sector")]. *)
Definition sector_values (stocks : list Stock) : list value :=
  omap (fun s : Stock =>
          match s !! "sector" with
          | Some v => if truthy v then Some v else None
          | None => None
          end) stocks.

(** [get_sectors]. *)
Definition get_sectors (now : Z) (st : Store) : result (list value) :=
  match load_cached_snapshot now st with
  | None => Ok []
  | Some cached =>
      sectors ← to_set (sector_values (stocks cached));
      sort_list sectors
  end.

(** [get_top_stocks]: the stocks and the [fetchedAt] of the reply.  With no
    stocks in the cache the source calls [get_dividend_stocks] without its
    required [background_tasks] argument, which raises [TypeError]. *)
Definition get_top_stocks (count : Z) (category : option string) (now : Z)
    (st : Store) : result (list Stock * Z) :=
  match load_cached_snapshot now st with
  | None => Raise TypeError
  | Some cached =>
      match stocks cached with
      | [] => Raise TypeError
      | _ :: _ =>
          stocks ← match given category with
                   | Some c =>
                       filterM (fun s => v ← getitem s "category"; Ok (eq_str v c))
                         (stocks cached)
                   | None => Ok (stocks cached)
                   end;
          _ ← foldM (fun _ s => _ ← getitem s "rankScore"; Ok ()) () stocks;
          sorted ← sort true (fun x => default VNone (x !! "rankScore")) stocks;
          Ok (slice_to count sorted, fetchedAt cached)
      end
  end.

(** The batches of a refresh run, and whether the run sleeps after each
    ([if i + batch_size < len(SP500_TICKERS)]). *)
Definition batches (tickers : list string) : list (list string) :=
  map (fun i => take batch_size (drop i tickers)) (batch_starts (length tickers)).

Definition refresh_sleeps (n : nat) : list bool :=
  map (fun i => (i + batch_size <? n)%nat) (batch_starts n).

(** [seed_data] of [seed_cache.py] sleeps after every batch. *)
Definition seed_sleeps (n : nat) : list bool :=
  map (fun _ => true) (batch_starts n).

End Endpoints.

(** ** The historical store for arbitrary records *)

Module History.

Import Cache.

(** The ticker and the point [save_snapshot] reads from a record, when the
    record holds them. *)
Definition stock_point (today : Z) (stock : Stock) : option (string * HistoricalPoint) :=
  match stock !! "ticker", stock !! "dividendYield", stock !! "price",
        stock !! "growthRate", stock !! "safetyScore" with
  | Some (VStr ticker), Some y, Some p, Some g, Some s =>
      Some (ticker, mkPoint today y p g s)
  | _, _, _, _, _ => None
  end.

(** The points of the records of [ticker], in the order of the records. *)
Definition points_for (today : Z) (ticker : string) (stocks : list Stock)
    : list HistoricalPoint :=
  omap (fun s => match stock_point today s with
                 | Some (t, pt) => if String.eqb t ticker then Some pt else None
                 | None => None
                 end) stocks.

(** The five values [save_snapshot] reads from a record. *)
Definition point_keys : list string :=
  ["ticker"; "dividendYield"; "price"; "growthRate"; "safetyScore"].

(** A record that holds a ticker and the four values [save_snapshot]
    reads. *)
Definition full_stock (ticker : string) (price : Q) : Stock :=
  {[ "ticker" := VStr ticker; "dividendYield" := VNum 3;
     "price" := VNum price; "growthRate" := VNum 1;
     "safetyScore" := VNum 70 ]}.

(** A provider that has values for one ticker only. *)
Definition one_provider (t : string) : option (string -> value) :=
  if String.eqb t "AAPL" then Some (fun _ => VNum 1) else None.

End History.

(** ** The filters as conditions on a record *)

Module Filter.

Import Cache.

(** A record passes a query: it meets each of the five conditions of
    [apply_filters_and_sort] that the query gives. *)
Definition passes (q : Query) (s : Stock) : Prop :=
  (forall c, given (category q) = Some c -> s !! "category" = Some (VStr c))
  /\ (forall m, min_yield q = Some m ->
        exists v, s !! "dividendYield" = Some (VNum v) /\ (m <= v)%Q)
  /\ (forall m, max_yield q = Some m ->
        exists v, s !! "dividendYield" = Some (VNum v) /\ (v <= m)%Q)
  /\ (forall m, min_safety q = Some m ->
        exists v, s !! "safetyScore" = Some (VNum v) /\ (inject_Z m <= v)%Q)
  /\ (forall c, given (sector q) = Some c ->
        exists x, s !! "sector" = Some (VStr x) /\ lower x = lower c).

(** [str.isascii]: every character is below 128.  On such strings
    [str.lower] and [str.upper] change the letters A-Z and a-z only, as
    [lower] and [upper] do. *)
Fixpoint isascii (s : string) : bool :=
  match s with
  | EmptyString => true
  | String c s' => (nat_of_ascii c <? 128)%nat && isascii s'
  end.

(** [l'] is [l] without its entries that fail [P]: every entry that meets
    [P] is kept, as often as it occurs and in its place. *)
Inductive keeps {A : Type} (P : A -> Prop) : list A -> list A -> Prop :=
| keeps_nil : keeps P [] []
| keeps_keep (x : A) (l l' : list A) :
    P x -> keeps P l l' -> keeps P (x :: l) (x :: l')
| keeps_drop (x : A) (l l' : list A) :
    ~ P x -> keeps P l l' -> keeps P (x :: l) l'.

End Filter.

(** * Properties *)

(** ** Analyzer *)

Module AnalyzerFacts.
Import Analyzer.

Section Groups.
Context {A : Type}.
Variable add : A -> A -> A.

Lemma add_to_year_keys (y : Z) (a : A) (g : list (Z * A)) (z : Z) :
  z ∈ map fst (add_to_year add y a g) <-> z = y \/ z ∈ map fst g.
Proof.
  induction g as [|[y' s] g IH]; simpl.
  - rewrite list_elem_of_singleton, elem_of_nil. tauto.
  - destruct (Z.ltb_spec y y'); simpl; [rewrite !elem_of_cons; tauto|].
    destruct (Z.eqb_spec y y'); simpl; rewrite !elem_of_cons.
    + subst. tauto.
    + rewrite IH. tauto.
Qed.

Lemma add_to_year_sorted (y : Z) (a : A) (g : list (Z * A)) :
  StronglySorted Z.lt (map fst g) ->
  StronglySorted Z.lt (map fst (add_to_year add y a g)).
Proof.
  induction g as [|[y' s] g IH]; simpl; intros Hs.
  - repeat constructor.
  - apply StronglySorted_inv in Hs as [Hs Hall].
    destruct (Z.ltb_spec y y').
    + simpl. constructor; [constructor; auto|].
      constructor; [lia|].
      eapply Forall_impl; [exact Hall|]. simpl. intros; lia.
    + destruct (Z.eqb_spec y y'); simpl.
      * constructor; auto.
      * constructor; [auto|].
        apply Forall_forall. intros z Hz.
        apply add_to_year_keys in Hz as [->|Hz]; [lia|].
        rewrite Forall_forall in Hall. auto.
Qed.

Lemma groupby_snoc (ds : list (Date * A)) (e : Date * A) :
  groupby_year_sum add (ds ++ [e])
  = add_to_year add (year (fst e)) (snd e) (groupby_year_sum add ds).
Proof. unfold groupby_year_sum. by rewrite fold_left_app. Qed.

Lemma has_payment_nil (y : Z) : ~ has_payment (A:=A) [] y.
Proof. intros (e & He & _). by apply elem_of_nil in He. Qed.

Lemma has_payment_snoc (ds : list (Date * A)) (e : Date * A) (y : Z) :
  has_payment (ds ++ [e]) y <-> y = year (fst e) \/ has_payment ds y.
Proof.
  unfold has_payment. split.
  - intros (x & Hx & <-). apply elem_of_app in Hx as [Hx|Hx]; [eauto|].
    apply list_elem_of_singleton in Hx as ->. by left.
  - intros [->|(x & Hx & <-)].
    + exists e. split; [|done]. apply elem_of_app. right. by apply list_elem_of_singleton.
    + exists x. split; [|done]. apply elem_of_app. by left.
Qed.

Lemma groupby_distinct_years (ds : list (Date * A)) :
  distinct_years ds (map fst (groupby_year_sum add ds)).
Proof.
  induction ds as [|e ds IH] using rev_ind.
  - split; [constructor|]. intros y. simpl. split.
    + intros H. by apply elem_of_nil in H.
    + intros H. by apply has_payment_nil in H.
  - destruct IH as [Hs Hm]. rewrite groupby_snoc. split.
    + by apply add_to_year_sorted.
    + intros y. rewrite add_to_year_keys, has_payment_snoc, Hm. tauto.
Qed.

(** [sorted(..., reverse=True)] keeps the elements and, on distinct
    years, lists them strictly descending. *)
Lemma insert_desc_elem (y z : Z) (l : list Z) :
  z ∈ insert_desc y l <-> z = y \/ z ∈ l.
Proof.
  induction l as [|x l IH]; simpl.
  - rewrite list_elem_of_singleton, elem_of_nil. tauto.
  - destruct (Z.ltb_spec x y); rewrite !elem_of_cons; [tauto|].
    rewrite IH. tauto.
Qed.

Lemma insert_desc_sorted (y : Z) (l : list Z) :
  y ∉ l -> StronglySorted Z.gt l -> StronglySorted Z.gt (insert_desc y l).
Proof.
  induction l as [|x l IH]; simpl; intros Hy Hs.
  - repeat constructor.
  - apply StronglySorted_inv in Hs as [Hs Hall].
    apply not_elem_of_cons in Hy as [Hne Hy].
    destruct (Z.ltb_spec x y).
    + constructor; [constructor; auto|].
      constructor; [lia|].
      eapply Forall_impl; [exact Hall|]. simpl. intros; lia.
    + constructor; [auto|].
      apply Forall_forall. intros z Hz.
      apply insert_desc_elem in Hz as [->|Hz]; [lia|].
      rewrite Forall_forall in Hall. auto.
Qed.

Lemma sorted_desc_elem (z : Z) (l : list Z) : z ∈ sorted_desc l <-> z ∈ l.
Proof.
  induction l as [|x l IH]; simpl; [done|].
  rewrite insert_desc_elem, elem_of_cons, IH. tauto.
Qed.

Lemma sorted_desc_sorted (l : list Z) :
  NoDup l -> StronglySorted Z.gt (sorted_desc l).
Proof.
  induction 1 as [|x l Hx Hl IH]; simpl; [constructor|].
  apply insert_desc_sorted; [|done]. by rewrite sorted_desc_elem.
Qed.

Lemma sorted_lt_NoDup (l : list Z) : StronglySorted Z.lt l -> NoDup l.
Proof.
  induction 1 as [|x l Hs IH Hall]; constructor; [|done].
  intros Hx. rewrite Forall_forall in Hall. specialize (Hall _ Hx). lia.
Qed.

(** The walk of [calculate_consecutive_years] over strictly descending
    years: it counts exactly the years [prev - 1], [prev - 2], ... that are
    present, and the next one down is absent. *)
Lemma consecutive_loop_run (rest : list Z) (prev c : Z) :
  StronglySorted Z.gt (prev :: rest) ->
  let r := (consecutive_loop prev rest c - c)%Z in
  (0 <= r)%Z
  /\ (forall i, (1 <= i <= r)%Z -> (prev - i)%Z ∈ rest)
  /\ (prev - (r + 1))%Z ∉ rest.
Proof.
  revert prev c. induction rest as [|y rest IH]; intros prev c Hs; simpl.
  - replace (c - c)%Z with 0%Z by lia. split; [lia|]. split.
    + intros i Hi. lia.
    + apply not_elem_of_nil.
  - apply StronglySorted_inv in Hs as [Hs Hall].
    pose proof (Forall_inv Hall) as Hy. simpl in Hy.
    destruct (Z.eqb_spec (prev - y) 1) as [Heq|Hne].
    + destruct (IH y (c + 1)%Z Hs) as (Hr & Hin & Hout).
      set (k := consecutive_loop y rest (c + 1)) in *.
      split; [lia|]. split.
      * intros i Hi. destruct (decide (i = 1%Z)) as [->|Hi1].
        -- replace (prev - 1)%Z with y by lia. apply list_elem_of_here.
        -- apply list_elem_of_further.
           replace (prev - i)%Z with (y - (i - 1))%Z by lia.
           apply Hin. lia.
      * replace (prev - (k - c + 1))%Z with (y - (k - (c + 1) + 1))%Z by lia.
        apply not_elem_of_cons. split; [lia|done].
    + replace (c - c)%Z with 0%Z by lia. split; [lia|]. split.
      * intros i Hi. lia.
      * apply StronglySorted_inv in Hs as [_ Hrest].
        rewrite Forall_forall in Hrest.
        apply not_elem_of_cons. split; [lia|].
        intros Hin. specialize (Hrest _ Hin). lia.
Qed.

Lemma consecutive_years_run (ds : list (Date * A)) :
  ds <> [] ->
  exists m, most_recent_year ds m
    /\ (1 <= calculate_consecutive_years add ds)%Z
    /\ (forall i, (0 <= i < calculate_consecutive_years add ds)%Z ->
          has_payment ds (m - i))
    /\ ~ has_payment ds (m - calculate_consecutive_years add ds).
Proof.
  intros Hne.
  destruct (groupby_distinct_years ds) as [Hsorted Hmem].
  set (keys := map fst (groupby_year_sum add ds)) in *.
  pose proof (sorted_desc_sorted keys (sorted_lt_NoDup _ Hsorted)) as Hdesc.
  assert (Hyears : forall y, y ∈ sorted_desc keys <-> has_payment ds y).
  { intros y. by rewrite sorted_desc_elem. }
  unfold calculate_consecutive_years. fold keys.
  destruct ds as [|e ds]; [done|].
  destruct (sorted_desc keys) as [|y0 rest] eqn:Hl.
  { exfalso. apply (not_elem_of_nil (year (fst e))). apply Hyears.
    exists e. split; [apply list_elem_of_here|done]. }
  destruct (consecutive_loop_run rest y0 1 Hdesc) as (Hr & Hin & Hout).
  set (k := consecutive_loop y0 rest 1) in *.
  exists y0. split; [|split; [lia|split]].
  - split; [apply Hyears, list_elem_of_here|].
    intros y Hy. apply Hyears in Hy.
    apply elem_of_cons in Hy as [->|Hy]; [lia|].
    apply StronglySorted_inv in Hdesc as [_ Hall].
    rewrite Forall_forall in Hall. specialize (Hall _ Hy). lia.
  - intros i Hi. apply Hyears. destruct (decide (i = 0%Z)) as [->|Hi0].
    + replace (y0 - 0)%Z with y0 by lia. apply list_elem_of_here.
    + apply list_elem_of_further, Hin. lia.
  - intros Hp. apply Hyears in Hp.
    apply elem_of_cons in Hp as [Hp|Hp]; [lia|].
    apply Hout. by replace (y0 - (k - 1 + 1))%Z with (y0 - k)%Z by lia.
Qed.

(** The sum pandas holds for a year is the sum of that year's amounts,
    taken in the order of the series. *)
Lemma assoc_absent (g : list (Z * A)) (y : Z) :
  y ∉ map fst g -> assoc g y = None.
Proof.
  induction g as [|[y' s] g IH]; simpl; [done|].
  intros [Hne Hy]%not_elem_of_cons.
  destruct (Z.eqb_spec y y'); [done|auto].
Qed.

Lemma assoc_elem (g : list (Z * A)) (y : Z) (s : A) :
  StronglySorted Z.lt (map fst g) -> (y, s) ∈ g -> assoc g y = Some s.
Proof.
  induction g as [|[y' s'] g IH]; simpl; intros Hs Hin.
  - by apply elem_of_nil in Hin.
  - apply StronglySorted_inv in Hs as [Hs Hall].
    apply elem_of_cons in Hin as [Heq|Hin].
    + inversion Heq; subst. by rewrite Z.eqb_refl.
    + destruct (Z.eqb_spec y y') as [->|Hne]; [|auto].
      rewrite Forall_forall in Hall.
      assert (y' ∈ map fst g) as Hy.
      { apply list_elem_of_In, in_map_iff. exists (y', s).
        split; [done|]. by apply list_elem_of_In. }
      specialize (Hall _ Hy). lia.
Qed.

Lemma assoc_add_to_year (g : list (Z * A)) (y z : Z) (a : A) :
  StronglySorted Z.lt (map fst g) ->
  assoc (add_to_year add y a g) z
  = if (z =? y)%Z
    then Some (match assoc g y with Some s => add s a | None => a end)
    else assoc g z.
Proof.
  induction g as [|[y' s] g IH]; simpl; intros Hs; [done|].
  apply StronglySorted_inv in Hs as [Hs Hall].
  destruct (Z.ltb_spec y y') as [Hlt|Hge]; simpl.
  - destruct (Z.eqb_spec y y'); [lia|].
    rewrite (assoc_absent g y); [done|].
    intros Hy. rewrite Forall_forall in Hall. specialize (Hall _ Hy). lia.
  - destruct (Z.eqb_spec y y') as [->|Hne]; simpl.
    + by destruct (Z.eqb_spec z y').
    + rewrite IH by done.
      destruct (Z.eqb_spec z y'), (Z.eqb_spec z y); try done; lia.
Qed.

Lemma sum_left_snoc (l : list A) (a : A) :
  sum_left add (l ++ [a])
  = Some (match sum_left add l with Some s => add s a | None => a end).
Proof.
  destruct l as [|b l]; simpl; [done|]. by rewrite fold_left_app.
Qed.

Lemma amounts_in_snoc (y : Z) (ds : list (Date * A)) (e : Date * A) :
  amounts_in y (ds ++ [e])
  = amounts_in y ds ++ (if (y =? year (fst e))%Z then [snd e] else []).
Proof.
  unfold amounts_in. rewrite filter_app, map_app. f_equal.
  rewrite filter_cons, filter_nil.
  destruct (Z.eqb_spec y (year (fst e))); case_decide; simpl; congruence.
Qed.

Lemma assoc_groupby (ds : list (Date * A)) (y : Z) :
  assoc (groupby_year_sum add ds) y = sum_left add (amounts_in y ds).
Proof.
  induction ds as [|e ds IH] using rev_ind; [done|].
  rewrite groupby_snoc, amounts_in_snoc.
  rewrite assoc_add_to_year by apply groupby_distinct_years.
  destruct (Z.eqb_spec y (year (fst e))) as [->|Hne].
  - by rewrite sum_left_snoc, IH.
  - by rewrite app_nil_r.
Qed.
End Groups.

Lemma fold_left_Rplus (l : list R) (a : R) :
  fold_left Rplus l a = (a + fold_right Rplus 0 l)%R.
Proof.
  revert a. induction l as [|b l IH]; intros a; simpl; [lra|].
  rewrite IH. lra.
Qed.

Lemma groupby_yearly_sum (ds : list (Date * R)) (y : Z) (s : R) :
  (y, s) ∈ groupby_year_sum Rplus ds -> s = yearly_sum ds y.
Proof.
  intros Hin.
  apply assoc_elem in Hin; [|apply groupby_distinct_years].
  rewrite assoc_groupby in Hin. unfold yearly_sum.
  destruct (amounts_in y ds) as [|a l]; simpl in *; [done|].
  inversion Hin. rewrite fold_left_Rplus. lra.
Qed.

(** A series has one list of distinct years. *)
Lemma sorted_lt_unique (l1 l2 : list Z) :
  StronglySorted Z.lt l1 -> StronglySorted Z.lt l2 ->
  (forall y, y ∈ l1 <-> y ∈ l2) -> l1 = l2.
Proof.
  intros H1. revert l2. induction H1 as [|x l1 Hs1 IH Hall1]; intros l2 H2 Heq.
  - destruct l2 as [|y l2]; [done|].
    exfalso. apply (not_elem_of_nil y), Heq, list_elem_of_here.
  - destruct H2 as [|y l2 Hs2 Hall2].
    { exfalso. apply (not_elem_of_nil x), Heq, list_elem_of_here. }
    rewrite Forall_forall in Hall1, Hall2.
    assert (x = y) as ->.
    { pose proof (proj1 (Heq x) (list_elem_of_here _ _)) as Hx.
      pose proof (proj2 (Heq y) (list_elem_of_here _ _)) as Hy.
      apply elem_of_cons in Hx as [->|Hx]; [done|].
      apply elem_of_cons in Hy as [->|Hy]; [done|].
      specialize (Hall1 _ Hy). specialize (Hall2 _ Hx). lia. }
    f_equal. apply IH; [done|]. intros z. split; intros Hz.
    + pose proof (proj1 (Heq z) (list_elem_of_further _ _ _ Hz)) as Hz'.
      apply elem_of_cons in Hz' as [->|Hz']; [|done].
      specialize (Hall1 _ Hz). lia.
    + pose proof (proj2 (Heq z) (list_elem_of_further _ _ _ Hz)) as Hz'.
      apply elem_of_cons in Hz' as [->|Hz']; [|done].
      specialize (Hall2 _ Hz). lia.
Qed.

Lemma distinct_years_unique {A} (add : A -> A -> A) (ds : list (Date * A)) (ys : list Z) :
  distinct_years ds ys -> ys = map fst (groupby_year_sum add ds).
Proof.
  intros [Hs Hm]. destruct (groupby_distinct_years add ds) as [Hs' Hm'].
  apply sorted_lt_unique; [done..|]. intros y. by rewrite Hm, Hm'.
Qed.

Lemma tail_map {A B} (f : A -> B) (n : nat) (l : list A) :
  tail n (map f l) = map f (tail n l).
Proof. unfold tail. by rewrite length_map, skipn_map. Qed.

Lemma head_map {A B} (f : A -> B) (l : list A) : head (map f l) = f <$> head l.
Proof. by destruct l. Qed.

Lemma last_map {A B} (f : A -> B) (l : list A) : last (map f l) = f <$> last l.
Proof.
  induction l as [|x l IH]; [done|].
  destruct l as [|y l]; [done|]. exact IH.
Qed.

Lemma tail_length {A} (n : nat) (l : list A) :
  length (tail n l) = Nat.min n (length l).
Proof. unfold tail. rewrite length_drop. lia. Qed.

Lemma tail_elem {A} (n : nat) (l : list A) (x : A) : x ∈ tail n l -> x ∈ l.
Proof.
  unfold tail. intros Hx. rewrite <- (take_drop (length l - n) l).
  apply elem_of_app. by right.
Qed.

Section GrowthFacts.
Variable pow : R -> R -> R.

Lemma growth_few_events (ds : list (Date * R)) :
  (length ds < 4)%nat -> calculate_dividend_growth pow ds = 0%R.
Proof.
  intros Hlen. unfold calculate_dividend_growth.
  destruct (Nat.ltb_spec (length ds) 4); [done|lia].
Qed.

Lemma growth_few_years (ds : list (Date * R)) :
  (length (groupby_year_sum Rplus ds) < 2)%nat ->
  calculate_dividend_growth pow ds = 0%R.
Proof.
  intros Hlen. unfold calculate_dividend_growth.
  destruct (Nat.ltb_spec (length ds) 4); [done|].
  destruct (Nat.ltb_spec (length (groupby_year_sum Rplus ds)) 2); [done|lia].
Qed.

Lemma growth_window (ds : list (Date * R)) :
  (4 <= length ds)%nat ->
  (2 <= length (groupby_year_sum Rplus ds))%nat ->
  exists y_start y_end,
    head (tail 5 (map fst (groupby_year_sum Rplus ds))) = Some y_start
    /\ last (tail 5 (map fst (groupby_year_sum Rplus ds))) = Some y_end
    /\ calculate_dividend_growth pow ds
       = let start := yearly_sum ds y_start in
         let n := (Z.of_nat (length (tail 5 (groupby_year_sum Rplus ds))) - 1)%Z in
         if Rle_dec start 0 then 0%R
         else if (n <=? 0)%Z then 0%R
         else ((pow (yearly_sum ds y_end / start) (1 / IZR n) - 1) * 100)%R.
Proof.
  intros H4 H2. unfold calculate_dividend_growth.
  destruct (Nat.ltb_spec (length ds) 4); [lia|].
  destruct (Nat.ltb_spec (length (groupby_year_sum Rplus ds)) 2); [lia|].
  rewrite tail_map, head_map, last_map.
  set (g := groupby_year_sum Rplus ds) in *.
  assert (length (tail 5 g) <> 0%nat) as Hne by (rewrite tail_length; lia).
  destruct (head (tail 5 g)) as [[y1 s1]|] eqn:Hh; cycle 1.
  { apply head_None in Hh. by rewrite Hh in Hne. }
  destruct (last (tail 5 g)) as [[y2 s2]|] eqn:Hl; cycle 1.
  { apply last_None in Hl. by rewrite Hl in Hne. }
  exists y1, y2. split; [done|]. split; [done|].
  apply head_Some_elem_of, tail_elem, groupby_yearly_sum in Hh.
  apply last_Some_elem_of, tail_elem, groupby_yearly_sum in Hl.
  by subst.
Qed.
End GrowthFacts.





(** The stored history: the last 400 events of the series, in its order. *)
Lemma dividend_history_split {A} (ds : list (Date * A)) :
  take (length ds - 400) ds ++ dividend_history ds = ds.
Proof. apply take_drop. Qed.

(** C4 (amended).  The stored dividend history is the last 400 events of
    the fetched series (all of them when there are fewer), in the order of
    the series: when the series is oldest first, the stored events are the
    most recent ones and are stored oldest first, most recent last. *)
Theorem dividend_history_last_400_in_series_order :
  forall (A : Type) (ds : list (Date * A)),
    length (dividend_history ds) = Nat.min 400 (length ds)
    /\ (length (dividend_history ds) <= 400)%nat
    /\ exists older,
        ds = older ++ dividend_history ds
        /\ (oldest_first ds ->
            oldest_first (dividend_history ds)
            /\ forall e e', e ∈ older -> e' ∈ dividend_history ds ->
                 date_le (fst e) (fst e')).
Proof.
  intros A ds. unfold dividend_history. rewrite tail_length.
  split; [done|]. split; [lia|].
  exists (take (length ds - 400) ds). split.
  { symmetry. apply take_drop. }
  intros Hs. unfold oldest_first in *.
  rewrite <- (take_drop (length ds - 400) ds) in Hs.
  apply StronglySorted_app in Hs as (Hcross & _ & Hr).
  split; [exact Hr|]. intros e e' He He'. by apply Hcross.
Qed.

(** C4 (as stated) fails: the history stored for a series of two events in
    the provider's date order is not most recent first. *)
Lemma dividend_history_not_most_recent_first :
  ~ most_recent_first
      (dividend_history [(mkDate 2023 3 1, 0.5%Q); (mkDate 2024 3 1, 0.5%Q)]).
Proof.
  unfold most_recent_first, dividend_history, tail. simpl.
  intros Hs. apply StronglySorted_inv in Hs as [_ Hall].
  apply Forall_inv in Hall. unfold date_le in Hall. simpl in Hall. lia.
Qed.

(** C6.  An empty series gives 0.  For a non-empty series with most recent
    payment year [m], the result [k] is at least 1, every year [m], [m - 1],
    ..., [m - (k - 1)] has a payment and year [m - k] has none: the count is
    the length of the unbroken run of years down from the most recent one
    and stops at the first gap.  Years 2024, 2023, 2022, 2020 give 3. *)
Theorem consecutive_years_maximal_run :
  (forall (A : Type) (add : A -> A -> A) (ds : list (Date * A)),
     (ds = [] -> calculate_consecutive_years add ds = 0%Z)
     /\ (ds <> [] ->
         exists m, most_recent_year ds m
           /\ (1 <= calculate_consecutive_years add ds)%Z
           /\ (forall i, (0 <= i < calculate_consecutive_years add ds)%Z ->
                 has_payment ds (m - i))
           /\ ~ has_payment ds (m - calculate_consecutive_years add ds)))
  /\ calculate_consecutive_years Qplus
       [(mkDate 2020 6 1, 0.5%Q); (mkDate 2022 6 1, 0.5%Q);
        (mkDate 2023 6 1, 0.5%Q); (mkDate 2024 6 1, 0.5%Q)] = 3%Z.
Proof.
  split; [|reflexivity].
  intros A add ds. split.
  - by intros ->.
  - apply consecutive_years_run.
Qed.
End AnalyzerFacts.

(** ** Scoring engine *)

Module ScoringFacts.
Import Scoring.
Local Open Scope Q_scope.

Lemma Qltb_lt (x y : Q) : Qltb x y = true <-> x < y.
Proof.
  unfold Qltb. rewrite negb_true_iff. split.
  - intros H. apply Qnot_le_lt. intros Hle.
    apply Qle_bool_iff in Hle. congruence.
  - intros H. destruct (Qle_bool y x) eqn:E; [|done].
    apply Qle_bool_iff in E. exfalso. by apply (Qlt_not_le x y).
Qed.

Lemma Qltb_ge (x y : Q) : Qltb x y = false <-> y <= x.
Proof.
  unfold Qltb. rewrite negb_false_iff. apply Qle_bool_iff.
Qed.

Tactic Notation "case_lt" constr(x) constr(y) "as" ident(E) :=
  destruct (Qltb x y) eqn:E; [apply Qltb_lt in E | apply Qltb_ge in E].

Lemma payout_step (p : Q) :
  exists a, payout_row p a /\ forall s : Z,
    (if Qeq_bool p 0 then s + 0
     else if Qltb p 30 then s + 25
     else if Qltb p 50 then s + 40
     else if Qltb p 70 then s + 30
     else if Qltb p 90 then s + 15
     else s - 10)%Z = (s + a)%Z.
Proof.
  destruct (Qeq_bool p 0) eqn:E0.
  { apply Qeq_bool_iff in E0. exists 0%Z. split; [by apply payout_none|done]. }
  apply Qeq_bool_neq in E0.
  case_lt p 30 as E1.
  { exists 25%Z. split; [by apply payout_low|done]. }
  case_lt p 50 as E2.
  { exists 40%Z. split; [by apply payout_ideal|done]. }
  case_lt p 70 as E3.
  { exists 30%Z. split; [by apply payout_fair|done]. }
  case_lt p 90 as E4.
  { exists 15%Z. split; [by apply payout_stretched|done]. }
  exists (-10)%Z. split; [by apply payout_high|done].
Qed.

Lemma years_step (c : Z) :
  exists a, years_row c a /\ forall s : Z,
    (if (c >=? 25)%Z then s + 30
     else if (c >=? 10)%Z then s + 20
     else if (c >=? 5)%Z then s + 10
     else if (c >=? 2)%Z then s + 5
     else s)%Z = (s + a)%Z.
Proof.
  destruct (Z.geb_spec c 25).
  { exists 30%Z. split; [apply years_25; lia|done]. }
  destruct (Z.geb_spec c 10).
  { exists 20%Z. split; [apply years_10; lia|done]. }
  destruct (Z.geb_spec c 5).
  { exists 10%Z. split; [apply years_5; lia|done]. }
  destruct (Z.geb_spec c 2).
  { exists 5%Z. split; [apply years_2; lia|done]. }
  exists 0%Z. split; [apply years_else; lia|intros; lia].
Qed.

Lemma growth_step (g : Q) :
  exists a, growth_row g a /\ forall s : Z,
    (if Qltb 10 g then s + 20
     else if Qltb 5 g then s + 15
     else if Qltb 0 g then s + 10
     else if Qltb (-5) g then s + 0
     else s - 10)%Z = (s + a)%Z.
Proof.
  case_lt 10 g as E1.
  { exists 20%Z. split; [by apply growth_10|done]. }
  case_lt 5 g as E2.
  { exists 15%Z. split; [by apply growth_5|done]. }
  case_lt 0 g as E3.
  { exists 10%Z. split; [by apply growth_0|done]. }
  case_lt (-5) g as E4.
  { exists 0%Z. split; [by apply growth_flat|done]. }
  exists (-10)%Z. split; [by apply growth_cut|done].
Qed.

Lemma yield_step (y : Q) :
  exists a, yield_row y a /\ forall s : Z,
    (if Qltb 0.10 y then s - 15
     else if Qltb 0.08 y then s - 5
     else s)%Z = (s + a)%Z.
Proof.
  case_lt 0.10 y as E1.
  { exists (-15)%Z. split; [by apply yield_10|done]. }
  case_lt 0.08 y as E2.
  { exists (-5)%Z. split; [by apply yield_8|done]. }
  exists 0%Z. split; [by apply yield_else|intros; lia].
Qed.

Lemma clamp_max_min (z : Z) : Z.max 0 (Z.min 100 z) = clamp z.
Proof.
  unfold clamp. destruct (Z.ltb_spec z 0), (Z.ltb_spec 100 z); lia.
Qed.

Lemma clamp_range (z : Z) : (0 <= clamp z <= 100)%Z.
Proof.
  unfold clamp. destruct (Z.ltb_spec z 0), (Z.ltb_spec 100 z); lia.
Qed.

(** Each table gives one adjustment. *)
Lemma payout_row_fun (p : Q) (a b : Z) : payout_row p a -> payout_row p b -> a = b.
Proof.
  destruct 1; destruct 1; try reflexivity; exfalso; (contradiction || Lqa.lra).
Qed.

Lemma years_row_fun (c a b : Z) : years_row c a -> years_row c b -> a = b.
Proof. destruct 1; destruct 1; lia. Qed.

Lemma growth_row_fun (g : Q) (a b : Z) : growth_row g a -> growth_row g b -> a = b.
Proof. destruct 1; destruct 1; try reflexivity; exfalso; Lqa.lra. Qed.

Lemma yield_row_fun (y : Q) (a b : Z) : yield_row y a -> yield_row y b -> a = b.
Proof. destruct 1; destruct 1; try reflexivity; exfalso; Lqa.lra. Qed.

(** C3.  The safety score is 50 plus the adjustment each of the four tables
    gives (each table gives exactly one), clamped to [0,100]; so it lies in
    [0,100]. *)
Theorem safety_score_is_clamped_table_sum :
  forall (payout_ratio : Q) (consecutive_years : Z) (growth_rate dividend_yield : Q),
    (exists a1 a2 a3 a4,
       payout_row payout_ratio a1 /\ years_row consecutive_years a2
       /\ growth_row growth_rate a3 /\ yield_row dividend_yield a4
       /\ calculate_safety_score payout_ratio consecutive_years growth_rate dividend_yield
          = clamp (50 + a1 + a2 + a3 + a4))
    /\ (forall a1 a2 a3 a4,
         payout_row payout_ratio a1 -> years_row consecutive_years a2 ->
         growth_row growth_rate a3 -> yield_row dividend_yield a4 ->
         calculate_safety_score payout_ratio consecutive_years growth_rate dividend_yield
         = clamp (50 + a1 + a2 + a3 + a4))
    /\ (0 <= calculate_safety_score payout_ratio consecutive_years growth_rate dividend_yield
        <= 100)%Z.
Proof.
  intros p c g y.
  destruct (payout_step p) as (a1 & R1 & E1), (years_step c) as (a2 & R2 & E2),
    (growth_step g) as (a3 & R3 & E3), (yield_step y) as (a4 & R4 & E4).
  assert (calculate_safety_score p c g y = clamp (50 + a1 + a2 + a3 + a4)) as Heq.
  { unfold calculate_safety_score. cbv zeta.
    rewrite E4, E3, E2, E1. apply clamp_max_min. }
  split; [by exists a1, a2, a3, a4|]. split.
  - intros b1 b2 b3 b4 H1 H2 H3 H4.
    rewrite (payout_row_fun _ _ _ H1 R1), (years_row_fun _ _ _ H2 R2),
      (growth_row_fun _ _ _ H3 R3), (yield_row_fun _ _ _ H4 R4).
    exact Heq.
  - rewrite Heq. apply clamp_range.
Qed.

(** The clamp is active: the raw sum 50 + 40 + 30 + 20 is cut to 100; with
    every negative adjustment the score is 15. *)
Example safety_score_clamped_at_100 : calculate_safety_score 40 30 12 0.05 = 100%Z.
Proof. reflexivity. Qed.

Example safety_score_all_penalties : calculate_safety_score 95 0 (-6) 0.2 = 15%Z.
Proof. reflexivity. Qed.

(** Payout buckets at their edges. *)
Example safety_score_payout_edges :
  calculate_safety_score 29.999 0 0 0 = 75%Z
  /\ calculate_safety_score 30 0 0 0 = 90%Z
  /\ calculate_safety_score 49.999 0 0 0 = 90%Z
  /\ calculate_safety_score 50 0 0 0 = 80%Z
  /\ calculate_safety_score 0 0 0 0 = 50%Z.
Proof. repeat split; reflexivity. Qed.

Lemma py_min_Qmin (a b : Q) : py_min a b == Qmin a b.
Proof.
  unfold py_min. destruct (Qltb b a) eqn:E.
  - apply Qltb_lt in E. symmetry. apply Q.min_r. by apply Qlt_le_weak.
  - apply Qltb_ge in E. symmetry. by apply Q.min_l.
Qed.

Lemma py_max_Qmax (a b : Q) : py_max a b == Qmax a b.
Proof.
  unfold py_max. destruct (Qltb a b) eqn:E.
  - apply Qltb_lt in E. symmetry. apply Q.max_r. by apply Qlt_le_weak.
  - apply Qltb_ge in E. symmetry. by apply Q.max_l.
Qed.

Lemma inject_Z_min (a b : Z) : inject_Z (Z.min a b) == Qmin (inject_Z a) (inject_Z b).
Proof.
  destruct (Z.min_spec a b) as [[Hlt ->]|[Hle ->]]; symmetry.
  - apply Q.min_l. rewrite <- Zle_Qle. lia.
  - apply Q.min_r. by rewrite <- Zle_Qle.
Qed.

(** C7.  The rank score is the weighted sum
    [0.35 yieldScore + 0.25 growthScore + 0.25 safetyScore + 0.15 trackScore]
    of the specification, with no clamp on the sum: it falls below 0 and
    rises above 100 on inputs outside the usual ranges. *)
Theorem rank_score_is_unclamped_weighted_sum :
  (forall (dividend_yield growth_rate : Q) (safety_score consecutive_years : Z),
     calculate_rank_score dividend_yield growth_rate safety_score consecutive_years
     == rank_spec dividend_yield growth_rate safety_score consecutive_years)
  /\ calculate_rank_score (-1) 0 0 0 < 0
  /\ 100 < calculate_rank_score 0.2 20 200 30.
Proof.
  split; [|split; reflexivity].
  intros y g s c. unfold calculate_rank_score, rank_spec. cbv zeta.
  rewrite !py_min_Qmin, py_max_Qmax, inject_Z_min, inject_Z_mult.
  assert (y * 100 * 10 == y * 1000) as -> by ring.
  change (inject_Z 4) with 4. change (inject_Z 100) with 100.
  ring.
Qed.

(** Yield 5%, growth 3%, safety 80, 12 years:
    0.35 * 50 + 0.25 * 65 + 0.25 * 80 + 0.15 * 48 = 60.95. *)
Example rank_score_known_vector : calculate_rank_score 0.05 3 80 12 == 60.95.
Proof. reflexivity. Qed.

End ScoringFacts.

(** ** Cache and refresh *)

Module CacheFacts.
Import Cache.

Lemma load_cached_snapshot_None (now : Z) (st : Store) :
  load_cached_snapshot now st = None <-> never_fetched st \/ stale now st.
Proof.
  unfold load_cached_snapshot, never_fetched, stale.
  destruct (snapshot_file st) as [snap|]; [|tauto].
  destruct (Z.ltb_spec (now - fetchedAt snap) (hours 24)); split.
  - done.
  - intros [?|(s & [= <-] & ?)]; [done|lia].
  - intros _. right. by exists snap.
  - done.
Qed.

Lemma load_cached_snapshot_Some (now : Z) (st : Store) (snap : Snapshot) :
  load_cached_snapshot now st = Some snap <->
  snapshot_file st = Some snap /\ (now - fetchedAt snap < hours 24)%Z.
Proof.
  unfold load_cached_snapshot.
  destruct (snapshot_file st) as [s|]; [|split; [done|by intros [? _]]].
  destruct (Z.ltb_spec (now - fetchedAt s) (hours 24)); split.
  - by intros [= ->].
  - by intros [[= ->] _].
  - done.
  - intros [[= ->] ?]. lia.
Qed.

(** A snapshot fetched 23 h 59 min ago is usable, one fetched 24 h 01 min
    ago is not. *)
Example snapshot_staleness_edge :
  let st := mkStore (Some (mkSnapshot 0 [])) None in
  load_cached_snapshot (hours 24 - 60000000) st = Some (mkSnapshot 0 [])
  /\ load_cached_snapshot (hours 24 + 60000000) st = None.
Proof. split; reflexivity. Qed.

Lemma get_dividend_stocks_unusable (force_refresh : bool) (q : Query)
    (now_load now_reply : Z) (st : Store) :
  never_fetched st \/ stale now_load st ->
  get_dividend_stocks force_refresh q now_load now_reply st
  = (false, Ok needs_initialization).
Proof.
  intros H. unfold get_dividend_stocks.
  apply load_cached_snapshot_None in H. by rewrite H.
Qed.

(** C9.  While no usable snapshot exists (the file is absent, or its
    [fetchedAt] is 24 hours old or more) a query returns the
    [needs_initialization] payload and adds no refresh task, whatever
    [force_refresh] is; a refresh task is added only with [force_refresh]
    set and a usable snapshot in place. *)
Theorem no_usable_snapshot_needs_initialization :
  forall (force_refresh : bool) (q : Query) (now_load now_reply : Z) (st : Store),
    (never_fetched st \/ stale now_load st ->
       get_dividend_stocks force_refresh q now_load now_reply st
       = (false, Ok needs_initialization))
    /\ (fst (get_dividend_stocks force_refresh q now_load now_reply st) = true ->
         force_refresh = true
         /\ exists snapshot, snapshot_file st = Some snapshot
              /\ (now_load - fetchedAt snapshot < hours 24)%Z).
Proof.
  intros force q now1 now2 st. split.
  - apply get_dividend_stocks_unusable.
  - unfold get_dividend_stocks.
    destruct (load_cached_snapshot now1 st) as [snap|] eqn:E; [|done].
    apply load_cached_snapshot_Some in E.
    destruct force; simpl; [|done]. intros _. split; [done|]. by exists snap.
Qed.

(** C2 (as stated) fails: a query against a store with no snapshot and one
    against a store with a 25 hours old snapshot return the same thing. *)
Lemma absent_and_stale_indistinguishable : ~ read_path_distinguishes.
Proof.
  intros H.
  apply (H false (mkQuery None None None None None "rankScore" 100)
           (hours 25) (hours 25)
           (mkStore None None) (mkStore (Some (mkSnapshot 0 [])) None)).
  - reflexivity.
  - exists (mkSnapshot 0 []). split; [reflexivity|]. vm_compute. discriminate.
  - reflexivity.
Qed.

Lemma apply_filters_and_sort_fields (stocks : list Stock) (q : Query) (now : Z)
    (r : Response) :
  apply_filters_and_sort stocks q now = Ok r ->
  r_fetchedAt r = Some now /\ r_status r = None.
Proof.
  unfold apply_filters_and_sort.
  destruct (apply_filters q stocks) as [filtered|e]; simpl; [|done].
  destruct (sort _ _ filtered) as [sorted|e]; simpl; [|done].
  by intros [= <-].
Qed.

(** C2 (amended).  A query against a snapshot never fetched and a query
    against a stale one both return the [needs_initialization] payload;
    there is no separate signal for a stale snapshot.  A query that is
    served from a usable snapshot returns a response without that status, so
    the read path tells "no usable snapshot" from "usable snapshot" only. *)
Theorem absent_and_stale_same_signal :
  forall (force_refresh : bool) (q : Query) (now_load now_reply : Z) (st : Store),
    (never_fetched st ->
       snd (get_dividend_stocks force_refresh q now_load now_reply st)
       = Ok needs_initialization)
    /\ (stale now_load st ->
       snd (get_dividend_stocks force_refresh q now_load now_reply st)
       = Ok needs_initialization)
    /\ (forall r, ~ never_fetched st -> ~ stale now_load st ->
         snd (get_dividend_stocks force_refresh q now_load now_reply st) = Ok r ->
         r_status r = None /\ r <> needs_initialization).
Proof.
  intros force q now1 now2 st.
  pose proof (get_dividend_stocks_unusable force q now1 now2 st) as Hno.
  split; [|split].
  - intros H. by rewrite Hno by by left.
  - intros H. by rewrite Hno by by right.
  - intros r Hn Hs. unfold get_dividend_stocks.
    destruct (load_cached_snapshot now1 st) as [snap|] eqn:E.
    + destruct force; simpl; intros Hr;
        apply apply_filters_and_sort_fields in Hr as [_ Hst];
        (split; [done|]); intros ->; discriminate.
    + apply load_cached_snapshot_None in E. tauto.
Qed.

(** C10.  A response served from the cached snapshot reports as
    [fetchedAt] the clock reading of the query, not the [fetchedAt] stored in
    the snapshot: two queries at different times against the same store
    report different values. *)
Theorem response_fetchedAt_is_query_time :
  forall (force_refresh : bool) (q : Query) (now_load now_reply now_reply' : Z)
    (st : Store) (snapshot : Snapshot) (r r' : Response),
    load_cached_snapshot now_load st = Some snapshot ->
    snd (get_dividend_stocks force_refresh q now_load now_reply st) = Ok r ->
    snd (get_dividend_stocks force_refresh q now_load now_reply' st) = Ok r' ->
    r_fetchedAt r = Some now_reply
    /\ r_fetchedAt r' = Some now_reply'
    /\ (now_reply <> now_reply' -> r_fetchedAt r <> r_fetchedAt r')
    /\ (now_reply <> fetchedAt snapshot -> r_fetchedAt r <> Some (fetchedAt snapshot)).
Proof.
  intros force q now1 now2 now2' st snap r r' Hc. unfold get_dividend_stocks.
  rewrite Hc. destruct force; simpl; intros H1 H2;
    apply apply_filters_and_sort_fields in H1 as [-> _];
    apply apply_filters_and_sort_fields in H2 as [-> _];
    (repeat split; congruence).
Qed.

(** Two queries, at times 20 and 30, against a snapshot fetched at 0 and
    loaded at time 10. *)
Lemma response_fetchedAt_is_query_time_witness :
  load_cached_snapshot 10 (mkStore (Some (mkSnapshot 0 [])) None)
  = Some (mkSnapshot 0 [])
  /\ snd (get_dividend_stocks false (by_field "rankScore") 10 20
            (mkStore (Some (mkSnapshot 0 [])) None))
     = Ok (mkResponse [] 0 (Some 20%Z) None)
  /\ snd (get_dividend_stocks false (by_field "rankScore") 10 30
            (mkStore (Some (mkSnapshot 0 [])) None))
     = Ok (mkResponse [] 0 (Some 30%Z) None)
  /\ (r_fetchedAt (mkResponse [] 0 (Some 20%Z) None) = Some 20%Z
      /\ r_fetchedAt (mkResponse [] 0 (Some 30%Z) None) = Some 30%Z
      /\ (20%Z <> 30%Z ->
          r_fetchedAt (mkResponse [] 0 (Some 20%Z) None)
          <> r_fetchedAt (mkResponse [] 0 (Some 30%Z) None))
      /\ (20%Z <> 0%Z ->
          r_fetchedAt (mkResponse [] 0 (Some 20%Z) None) <> Some 0%Z)).
Proof.
  split; [reflexivity|]. split; [reflexivity|]. split; [reflexivity|].
  exact (response_fetchedAt_is_query_time false (by_field "rankScore") 10 20 30
           (mkStore (Some (mkSnapshot 0 [])) None) (mkSnapshot 0 [])
           (mkResponse [] 0 (Some 20%Z) None) (mkResponse [] 0 (Some 30%Z) None)
           eq_refl eq_refl eq_refl).
Defined.


(** *** Refresh *)

Section RefreshFacts.
Variable provider : string -> option (string -> value).

(** Batching does not change what is aggregated. *)
Lemma batches_cover {A B} (g : list A -> list B) (m : nat) (l : list A) :
  g [] = [] -> (forall a b, g (a ++ b) = g a ++ g b) ->
  (length l <= m * batch_size)%nat ->
  flat_map (fun i => g (take batch_size (drop i l)))
    (map (fun k => k * batch_size)%nat (seq 0 m)) = g l.
Proof.
  intros Hnil Happ. revert l. induction m as [|m IH]; intros l Hlen.
  - destruct l; [by rewrite Hnil|simpl in Hlen; lia].
  - transitivity (g (take batch_size l ++ drop batch_size l));
      [|by rewrite take_drop].
    rewrite Happ, <- (IH (drop batch_size l)) by (rewrite length_drop; lia).
    rewrite <- cons_seq, <- seq_shift, map_cons, map_map. cbn [flat_map].
    change (0 * batch_size)%nat with 0%nat. rewrite drop_0. f_equal.
    clear IH Hlen. induction (seq 0 m) as [|k ks IHks]; [done|].
    cbn [map flat_map]. by rewrite IHks, drop_drop.
Qed.










End RefreshFacts.

(** A series in the historical store never holds more than 30 points. *)
Lemma add_point_cap (today : Z) (h h' : Historical) (stock : Stock)
    (ticker : string) (series : list HistoricalPoint) :
  add_point today h stock = Ok h' ->
  getitem stock "ticker" = Ok (VStr ticker) ->
  h' !! ticker = Some series -> (length series <= 30)%nat.
Proof.
  unfold add_point. intros Hadd Ht. rewrite Ht in Hadd. cbn [mbind result_bind] in Hadd.
  destruct (getitem stock "dividendYield"); cbn [mbind result_bind] in Hadd; [|done].
  destruct (getitem stock "price"); cbn [mbind result_bind] in Hadd; [|done].
  destruct (getitem stock "growthRate"); cbn [mbind result_bind] in Hadd; [|done].
  destruct (getitem stock "safetyScore"); cbn [mbind result_bind] in Hadd; [|done].
  injection Hadd as <-. rewrite lookup_insert_eq. intros [= <-].
  unfold Analyzer.tail. rewrite length_drop. lia.
Qed.



End CacheFacts.

(** ** Filtering and sorting *)

Module SortFacts.
Import Cache.

Lemma Qeq_bool_comm (x y : Q) : Qeq_bool x y = Qeq_bool y x.
Proof.
  destruct (Qeq_bool x y) eqn:E1, (Qeq_bool y x) eqn:E2; try done.
  - apply Qeq_bool_iff in E1. symmetry in E1. apply Qeq_bool_iff in E1. congruence.
  - apply Qeq_bool_iff in E2. symmetry in E2. apply Qeq_bool_iff in E2. congruence.
Qed.

Lemma list_lt_asym (a b : list (string * Q)) :
  list_lt a b = Ok true -> list_lt b a = Ok false.
Proof.
  revert b. induction a as [|x a IH]; intros [|y b]; simpl; try done.
  rewrite (String.eqb_sym (fst y)), (Qeq_bool_comm (snd y)).
  destruct (_ && _); [apply IH|done].
Qed.

Lemma string_ltb_asym (x y : string) :
  String.ltb x y = true -> String.ltb y x = false.
Proof.
  unfold String.ltb. rewrite (String.compare_antisym x y).
  by destruct (String.compare y x).
Qed.

Lemma py_lt_true (a b : value) : py_lt a b = Ok true -> value_le a b.
Proof.
  destruct a, b; simpl; try done.
  - intros [= H]. unfold Scoring.Qltb in H. apply negb_true_iff in H.
    apply Qlt_le_weak, Qnot_le_lt. intros Hle. apply Qle_bool_iff in Hle. congruence.
  - intros [= H]. by apply string_ltb_asym.
  - apply list_lt_asym.
Qed.

Lemma py_lt_false (a b : value) : py_lt a b = Ok false -> value_le b a.
Proof.
  destruct a, b; simpl; try done.
  - intros [= H]. unfold Scoring.Qltb in H. apply negb_false_iff in H.
    by apply Qle_bool_iff.
  - by intros [= H].
Qed.

Section Sort.
Variable reverse : bool.
Variable key : Stock -> value.

Let R (x y : Stock) : Prop := in_order reverse (key x) (key y).

Lemma insert_sorted_ok (x : Stock) (l l' : list Stock) :
  insert_sorted reverse key x l = Ok l' ->
  Permutation (x :: l) l'
  /\ (Sorted R l -> Sorted R l')
  /\ (forall z, R z x -> HdRel R z l -> HdRel R z l').
Proof.
  revert l'. induction l as [|y l IH]; intros l'; simpl.
  - intros [= <-]. split; [done|]. split; [by repeat constructor|].
    intros z Hz _. by constructor.
  - destruct (if reverse then py_lt (key x) (key y) else py_lt (key y) (key x))
      as [[|]|e] eqn:Hcmp; simpl; [| |done].
    + destruct (insert_sorted reverse key x l) as [rest|e]; simpl; [|done].
      intros [= <-]. destruct (IH rest eq_refl) as (Hp & Hs & Hh).
      assert (R y x) as Hyx.
      { unfold R, in_order. destruct reverse; by apply py_lt_true. }
      split; [|split].
      * rewrite perm_swap. by constructor.
      * intros Hsorted. apply Sorted_inv in Hsorted as [Hsl Hhd].
        constructor; [by apply Hs|by apply Hh].
      * intros z _ Hz. apply HdRel_inv in Hz. by constructor.
    + intros [= <-].
      assert (R x y) as Hxy.
      { unfold R, in_order. destruct reverse; by apply py_lt_false. }
      split; [done|]. split.
      * intros Hsorted. constructor; [done|by constructor].
      * intros z Hz _. by constructor.
Qed.

Lemma sort_ok (l l' : list Stock) :
  sort reverse key l = Ok l' -> Permutation l l' /\ Sorted R l'.
Proof.
  revert l'. induction l as [|x l IH]; intros l'; simpl.
  - intros [= <-]. split; [done|constructor].
  - destruct (sort reverse key l) as [sorted|e]; simpl; [|done].
    destruct (IH sorted eq_refl) as [Hp Hs]. intros Hins.
    apply insert_sorted_ok in Hins as (Hp' & Hs' & _).
    split; [|by apply Hs']. by rewrite Hp.
Qed.

(** Keys of one kind always compare. *)
Variable P : value -> Prop.
Hypothesis P_compare : forall a b, P a -> P b -> exists c, py_lt a b = Ok c.


End Sort.

Lemma Sorted_take {A} (R : A -> A -> Prop) (n : nat) (l : list A) :
  Sorted R l -> Sorted R (take n l).
Proof.
  intros Hs. revert n. induction Hs as [|x l Hs IH Hhd]; intros [|n]; simpl;
    try constructor; [apply IH|].
  destruct Hhd; destruct n; simpl; by constructor.
Qed.

Lemma Sorted_slice_to {A} (R : A -> A -> Prop) (limit : Z) (l : list A) :
  Sorted R l -> Sorted R (slice_to limit l).
Proof. intros Hs. unfold slice_to. destruct (0 <=? limit)%Z; by apply Sorted_take. Qed.






End SortFacts.

(** ** Payment frequency *)

Module CadenceFacts.
Import Cadence.

Lemma insert_asc_perm (t : Z) (l : list Z) : Permutation (t :: l) (insert_asc t l).
Proof.
  induction l as [|x l IH]; simpl; [done|].
  destruct (t <? x)%Z; [done|]. rewrite perm_swap. by constructor.
Qed.

Lemma insert_asc_sorted (t : Z) (l : list Z) :
  Sorted Z.le l -> Sorted Z.le (insert_asc t l).
Proof.
  induction l as [|x l IH]; simpl; intros Hs.
  - by repeat constructor.
  - apply Sorted_inv in Hs as [Hs Hhd].
    destruct (Z.ltb_spec t x).
    + constructor; [by constructor|]. constructor. lia.
    + constructor; [by apply IH|].
      destruct l as [|y l]; simpl.
      * constructor. lia.
      * apply HdRel_inv in Hhd. destruct (t <? y)%Z; constructor; lia.
Qed.

Lemma sort_values_perm (l : list Z) : Permutation l (sort_values l).
Proof.
  induction l as [|x l IH]; simpl; [done|].
  rewrite <- insert_asc_perm. by constructor.
Qed.

Lemma sort_values_sorted (l : list Z) : Sorted Z.le (sort_values l).
Proof.
  induction l as [|x l IH]; simpl; [constructor|]. by apply insert_asc_sorted.
Qed.

Lemma sort_values_length (l : list Z) : length (sort_values l) = length l.
Proof. symmetry. apply Permutation_length, sort_values_perm. Qed.

Lemma sort_values_permutation (l l' : list Z) :
  Permutation l l' -> sort_values l = sort_values l'.
Proof.
  intros Hp. apply (Sorted_unique Z.le); try apply sort_values_sorted.
  by rewrite <- !sort_values_perm.
Qed.

Lemma sort_values_sorted_id (l : list Z) : Sorted Z.le l -> sort_values l = l.
Proof.
  intros Hs. apply (Sorted_unique Z.le); [apply sort_values_sorted|done|].
  symmetry. apply sort_values_perm.
Qed.

Lemma classify_known (a : Q) : classify a <> "Unknown".
Proof.
  unfold classify.
  destruct (Scoring.Qltb a 45); [done|].
  destruct (Scoring.Qltb a 100); [done|].
  destruct (Scoring.Qltb a 200); done.
Qed.

Lemma classify_proper (a b : Q) : (a == b)%Q -> classify a = classify b.
Proof.
  intros Heq. unfold classify, Scoring.Qltb.
  assert (forall c, Qle_bool c a = Qle_bool c b) as H.
  { intros c. destruct (Qle_bool c a) eqn:E1, (Qle_bool c b) eqn:E2; try done.
    - apply Qle_bool_iff in E1. rewrite Heq in E1. apply Qle_bool_iff in E1. congruence.
    - apply Qle_bool_iff in E2. rewrite <- Heq in E2. apply Qle_bool_iff in E2. congruence. }
  by rewrite !H.
Qed.

Lemma frequency_permutation (index index' : list Z) :
  Permutation index index' ->
  determine_payment_frequency index = determine_payment_frequency index'.
Proof.
  intros Hp. unfold determine_payment_frequency.
  by rewrite (Permutation_length Hp), (sort_values_permutation _ _ Hp).
Qed.


(** X1.  [determine_payment_frequency] answers ["Unknown"] exactly when the
    series has fewer than two payments, and its answer does not depend on
    the order in which the payment dates are given: the dates are sorted
    before the gaps are taken. *)
Theorem payment_frequency_unknown_and_order :
  forall index : list Z,
    ((length index < 2)%nat <-> determine_payment_frequency index = "Unknown")
    /\ forall index', Permutation index index' ->
         determine_payment_frequency index = determine_payment_frequency index'.
Proof.
  intros index. split; [|apply frequency_permutation].
  unfold determine_payment_frequency. rewrite sort_values_length.
  destruct (Nat.ltb_spec (length index) 2); split; try done; try lia.
  intros Hu. by apply classify_known in Hu.
Qed.

Lemma default_last_cons (a b : Z) (l : list Z) :
  default a (last (b :: l)) = default b (last l).
Proof.
  destruct l as [|c l]; [done|].
  change (last (b :: c :: l)) with (last (c :: l)).
  destruct (last (c :: l)) eqn:E; [done|]. by apply last_None in E.
Qed.

(** Telescoping: on ascending dates that are whole days apart the gaps add up
    to the span. *)
Lemma gaps_sum (a : Z) (l : list Z) :
  Forall (fun t => ((t - a) mod day_len = 0)%Z) l ->
  (sum (gaps (a :: l)) * day_len = default a (last l) - a)%Z.
Proof.
  revert a. induction l as [|b l IH]; intros a Hal.
  - simpl. lia.
  - apply Forall_cons in Hal as [Hb Hl].
    change (gaps (a :: b :: l)) with (((b - a) / day_len)%Z :: gaps (b :: l)).
    unfold sum in *. cbn [fold_right].
    assert (Forall (fun t => ((t - b) mod day_len = 0)%Z) l) as Hl'.
    { eapply Forall_impl; [exact Hl|]. intros t Ht. simpl in *.
      replace (t - b)%Z with ((t - a) - (b - a))%Z by lia.
      rewrite Zminus_mod, Ht, Hb. reflexivity. }
    specialize (IH b Hl').
    assert (day_len <> 0)%Z as Hd by (vm_compute; discriminate).
    pose proof (Z.div_mod (b - a) day_len Hd) as Hdm. rewrite Hb in Hdm.
    rewrite default_last_cons. lia.
Qed.

Lemma gaps_length (l : list Z) : length (gaps l) = (length l - 1)%nat.
Proof.
  induction l as [|a l IH]; [done|].
  destruct l as [|b l]; [done|].
  change (gaps (a :: b :: l)) with (((b - a) / day_len)%Z :: gaps (b :: l)).
  cbn [length] in *. lia.
Qed.

Lemma Zdiv_exact (a b : Z) : (a * day_len = b)%Z -> (b / day_len = a)%Z.
Proof.
  intros <-. apply Z.div_mul. vm_compute. discriminate.
Qed.

(** The frequency of ascending dates that are whole days apart: the span in
    days over the number of gaps decides. *)
Lemma frequency_sorted (a : Z) (l : list Z) :
  l <> [] -> Sorted Z.le (a :: l) ->
  Forall (fun t => ((t - a) mod day_len = 0)%Z) l ->
  determine_payment_frequency (a :: l)
  = classify (inject_Z ((default a (last l) - a) / day_len)
              / inject_Z (Z.of_nat (length l)))%Q.
Proof.
  intros Hne Hs Hal. unfold determine_payment_frequency.
  rewrite (sort_values_sorted_id _ Hs).
  destruct l as [|b l]; [done|]. cbn [length Nat.ltb Nat.leb].
  rewrite gaps_length, (Zdiv_exact _ _ (gaps_sum a (b :: l) Hal)).
  by replace (length (a :: b :: l) - 1)%nat with (length (b :: l))
    by (cbn [length]; lia).
Qed.

Lemma sorted_head_min (a : Z) (l : list Z) :
  Sorted Z.le (a :: l) -> Forall (Z.le a) l.
Proof.
  intros Hs. apply Sorted_StronglySorted in Hs; [|intros x y z; lia].
  by apply StronglySorted_inv in Hs as [_ ?].
Qed.

Lemma sorted_last_max (a : Z) (l : list Z) :
  Sorted Z.le (a :: l) ->
  (a <= default a (last l))%Z /\ Forall (fun t => (t <= default a (last l))%Z) l.
Proof.
  revert a. induction l as [|b l IH]; intros a Hs.
  - simpl. split; [lia|constructor].
  - apply Sorted_inv in Hs as [Hs Hhd]. apply HdRel_inv in Hhd.
    destruct (IH b Hs) as [Hb Hl]. rewrite default_last_cons.
    split; [lia|]. constructor; [done|exact Hl].
Qed.


(** X2.  With at least two payments, all a whole number of days apart,
    the frequency depends only on the earliest date, the latest date and the
    number of payments: the average gap is the span in days divided by the
    number of gaps, however the payments in between are spread. *)
Theorem payment_frequency_depends_on_span :
  forall (index : list Z) (lo hi : Z),
    (2 <= length index)%nat ->
    lo ∈ index -> hi ∈ index ->
    Forall (fun t => (lo <= t <= hi)%Z /\ ((t - lo) mod day_len = 0)%Z) index ->
    determine_payment_frequency index
    = classify (inject_Z ((hi - lo) / day_len)
                / inject_Z (Z.of_nat (length index) - 1))%Q.
Proof.
  intros index lo hi Hlen Hlo Hhi Hall.
  pose proof (sort_values_perm index) as Hp.
  pose proof (sort_values_sorted index) as Hs.
  rewrite (frequency_permutation _ _ Hp).
  rewrite (Permutation_length Hp) in Hlen |- *.
  rewrite Hp in Hlo, Hhi, Hall.
  destruct (sort_values index) as [|a l]; [simpl in Hlen; lia|].
  destruct l as [|b l]; [simpl in Hlen; lia|].
  pose proof (sorted_head_min _ _ Hs) as Hmin.
  destruct (sorted_last_max _ _ Hs) as [Hmax1 Hmax].
  rewrite Forall_forall in Hall, Hmin, Hmax.
  assert (a = lo) as ->.
  { apply elem_of_cons in Hlo as [->|Hlo]; [done|].
    specialize (Hmin _ Hlo). destruct (Hall a (list_elem_of_here _ _)). lia. }
  assert (default lo (last (b :: l)) = hi) as Hlast.
  { assert (default lo (last (b :: l)) ∈ lo :: b :: l) as Hin.
    { right. destruct (last (b :: l)) as [x|] eqn:E.
      - by apply last_Some_elem_of in E.
      - by apply last_None in E. }
    destruct (Hall _ Hin) as [[_ ?] _].
    apply elem_of_cons in Hhi as [->|Hhi]; [lia|].
    specialize (Hmax _ Hhi). lia. }
  rewrite frequency_sorted; [|done|done|].
  - rewrite Hlast. apply classify_proper. cbn [length].
    replace (Z.of_nat (S (S (length l))) - 1)%Z with (Z.of_nat (S (length l))) by lia.
    reflexivity.
  - apply Forall_forall. intros t Ht. apply Hall. by right.
Qed.

Lemma payment_frequency_depends_on_span_witness :
  (2 <= length [182 * day_len; 0; 10 * day_len]%Z)%nat
  /\ 0%Z ∈ [182 * day_len; 0; 10 * day_len]%Z
  /\ (182 * day_len)%Z ∈ [182 * day_len; 0; 10 * day_len]%Z
  /\ determine_payment_frequency [182 * day_len; 0; 10 * day_len]%Z
     = classify (inject_Z ((182 * day_len - 0) / day_len) / inject_Z (3 - 1))%Q
  /\ determine_payment_frequency [182 * day_len; 0; 10 * day_len]%Z = "Quarterly".
Proof.
  split; [simpl; lia|]. split; [rewrite !elem_of_cons; auto|].
  split; [rewrite !elem_of_cons; auto|]. split; [|reflexivity].
  apply (payment_frequency_depends_on_span
           [182 * day_len; 0; 10 * day_len]%Z 0 (182 * day_len)).
  - simpl. lia.
  - rewrite !elem_of_cons; auto.
  - rewrite !elem_of_cons; auto.
  - repeat constructor; vm_compute; congruence.
Defined.

Lemma every_days_S (t0 d : Z) (n : nat) :
  every_days t0 d (S n) = t0 :: every_days (t0 + d * day_len) d n.
Proof.
  unfold every_days. rewrite <- cons_seq, <- seq_shift, map_cons, map_map.
  f_equal; [lia|]. apply map_ext. intros k. lia.
Qed.

Lemma every_days_length (t0 d : Z) (n : nat) : length (every_days t0 d n) = n.
Proof. unfold every_days. by rewrite length_map, length_seq. Qed.

Lemma every_days_facts (d : Z) (n : nat) (t0 : Z) :
  (0 <= d)%Z ->
  Sorted Z.le (t0 :: every_days (t0 + d * day_len) d n)
  /\ Forall (fun t => ((t - t0) mod day_len = 0)%Z) (every_days (t0 + d * day_len) d n)
  /\ default t0 (last (every_days (t0 + d * day_len) d n))
     = (t0 + Z.of_nat n * (d * day_len))%Z.
Proof.
  intros Hd. assert (0 < day_len)%Z as Hday by (vm_compute; reflexivity).
  revert t0. induction n as [|n IH]; intros t0.
  - simpl. split; [by repeat constructor|]. split; [constructor|lia].
  - rewrite every_days_S.
    destruct (IH (t0 + d * day_len)%Z) as (Hs & Hal & Hlast).
    split; [|split].
    + constructor; [exact Hs|]. constructor. nia.
    + constructor.
      * replace (t0 + d * day_len - t0)%Z with (d * day_len)%Z by lia.
        apply Z.mod_mul. lia.
      * eapply Forall_impl; [exact Hal|]. intros t Ht. simpl in *.
        replace (t - t0)%Z with ((t - (t0 + d * day_len)) + d * day_len)%Z by lia.
        rewrite Z.mod_add by lia. exact Ht.
    + rewrite default_last_cons, Hlast. lia.
Qed.


(** X3.  At least two payments [d] days apart are classified by [d]
    alone: ["Monthly"] under 45 days, ["Quarterly"] from 45 and under 100,
    ["Semi-Annual"] from 100 and under 200, ["Annual"] from 200 on. *)
Theorem payment_frequency_evenly_spaced :
  forall (t0 d : Z) (n : nat),
    (2 <= n)%nat -> (0 <= d)%Z ->
    determine_payment_frequency (every_days t0 d n) = classify (inject_Z d)
    /\ ((d < 45)%Z -> determine_payment_frequency (every_days t0 d n) = "Monthly")
    /\ ((45 <= d < 100)%Z ->
        determine_payment_frequency (every_days t0 d n) = "Quarterly")
    /\ ((100 <= d < 200)%Z ->
        determine_payment_frequency (every_days t0 d n) = "Semi-Annual")
    /\ ((200 <= d)%Z -> determine_payment_frequency (every_days t0 d n) = "Annual").
Proof.
  intros t0 d n Hn Hd.
  assert (determine_payment_frequency (every_days t0 d n) = classify (inject_Z d))
    as Heq.
  { destruct n as [|n]; [lia|]. rewrite every_days_S.
    destruct (every_days_facts d n t0 Hd) as (Hs & Hal & Hlast).
    rewrite frequency_sorted; [|destruct n; [lia|by rewrite every_days_S]|done|done].
    rewrite Hlast, every_days_length. apply classify_proper.
    replace (t0 + Z.of_nat n * (d * day_len) - t0)%Z
      with (Z.of_nat n * d * day_len)%Z by lia.
    rewrite Z.div_mul by (vm_compute; discriminate).
    rewrite inject_Z_mult. field.
    intros H0. unfold Qeq in H0. simpl in H0. lia. }
  rewrite Heq. unfold classify, Scoring.Qltb.
  assert (forall k : Z, Qle_bool (inject_Z k) (inject_Z d) = (k <=? d)%Z) as Hle.
  { intros k. destruct (Z.leb_spec k d) as [H|H].
    - apply Qle_bool_iff. by rewrite <- Zle_Qle.
    - destruct (Qle_bool _ _) eqn:E; [|done].
      apply Qle_bool_iff in E. rewrite <- Zle_Qle in E. lia. }
  change 45%Q with (inject_Z 45). change 100%Q with (inject_Z 100).
  change 200%Q with (inject_Z 200). rewrite !Hle.
  split; [done|].
  destruct (Z.leb_spec 45 d), (Z.leb_spec 100 d), (Z.leb_spec 200 d);
    repeat split; intros; simpl; try reflexivity; lia.
Qed.

Lemma payment_frequency_evenly_spaced_witness :
  (2 <= 8)%nat /\ (0 <= 91)%Z
  /\ determine_payment_frequency (every_days 0 91 8) = "Quarterly"
  /\ determine_payment_frequency (every_days 0 31 8) = "Monthly".
Proof.
  split; [lia|]. split; [lia|]. split.
  - apply (payment_frequency_evenly_spaced 0 91 8); lia.
  - reflexivity.
Defined.
End CadenceFacts.

(** ** More on the analyzer *)

Module AnalyzerMore.
Import Analyzer AnalyzerFacts.

Lemma has_payment_cons {A} (e : Date * A) (ds : list (Date * A)) :
  has_payment (e :: ds) (year (fst e)).
Proof. exists e. split; [apply list_elem_of_here|done]. Qed.

Lemma same_years_nil {A B} (ds : list (Date * A)) (ds' : list (Date * B)) :
  (forall y, has_payment ds y <-> has_payment ds' y) -> ds = [] -> ds' = [].
Proof.
  intros Hy ->. destruct ds' as [|e ds']; [done|].
  exfalso. apply (has_payment_nil (A:=A) (year (fst e))), Hy, has_payment_cons.
Qed.

Lemma same_years_keys {A B} (add : A -> A -> A) (add' : B -> B -> B)
    (ds : list (Date * A)) (ds' : list (Date * B)) :
  (forall y, has_payment ds y <-> has_payment ds' y) ->
  map fst (groupby_year_sum add ds) = map fst (groupby_year_sum add' ds').
Proof.
  intros Hy. destruct (groupby_distinct_years add ds) as [Hs Hm].
  destruct (groupby_distinct_years add' ds') as [Hs' Hm'].
  apply sorted_lt_unique; [done..|]. intros y. by rewrite Hm, Hm', Hy.
Qed.

Lemma consecutive_loop_bound (rest : list Z) (prev c : Z) :
  (c <= consecutive_loop prev rest c <= c + Z.of_nat (length rest))%Z.
Proof.
  revert prev c. induction rest as [|y rest IH]; intros prev c; simpl; [lia|].
  destruct (prev - y =? 1)%Z; [|lia]. specialize (IH y (c + 1)%Z). lia.
Qed.

Lemma insert_desc_length (y : Z) (l : list Z) :
  length (insert_desc y l) = S (length l).
Proof.
  induction l as [|x l IH]; simpl; [done|].
  destruct (x <? y)%Z; simpl; by rewrite ?IH.
Qed.

Lemma sorted_desc_length (l : list Z) : length (sorted_desc l) = length l.
Proof.
  induction l as [|x l IH]; simpl; [done|]. by rewrite insert_desc_length, IH.
Qed.

Lemma add_to_year_length {A} (add : A -> A -> A) (y : Z) (a : A) (g : list (Z * A)) :
  (length (add_to_year add y a g) <= S (length g))%nat.
Proof.
  induction g as [|[y' s] g IH]; simpl; [done|].
  destruct (y <? y')%Z; simpl; [lia|]. destruct (y =? y')%Z; simpl; lia.
Qed.

Lemma groupby_length {A} (add : A -> A -> A) (ds : list (Date * A)) :
  (length (groupby_year_sum add ds) <= length ds)%nat.
Proof.
  induction ds as [|e ds IH] using rev_ind; [done|].
  rewrite groupby_snoc, length_app. simpl.
  pose proof (add_to_year_length add (year (fst e)) (snd e) (groupby_year_sum add ds)).
  lia.
Qed.

Lemma consecutive_years_bound {A} (add : A -> A -> A) (ds : list (Date * A)) :
  (0 <= calculate_consecutive_years add ds
   <= Z.of_nat (length (groupby_year_sum add ds)))%Z.
Proof.
  unfold calculate_consecutive_years. destruct ds as [|e ds]; [simpl; lia|].
  pose proof (sorted_desc_length (map fst (groupby_year_sum add (e :: ds)))) as Hl.
  rewrite length_map in Hl.
  destruct (sorted_desc _) as [|y0 rest]; [lia|].
  pose proof (consecutive_loop_bound rest y0 1). simpl in Hl. lia.
Qed.

Lemma consecutive_years_same_years {A B} (add : A -> A -> A) (add' : B -> B -> B)
    (ds : list (Date * A)) (ds' : list (Date * B)) :
  (forall y, has_payment ds y <-> has_payment ds' y) ->
  calculate_consecutive_years add ds = calculate_consecutive_years add' ds'.
Proof.
  intros Hy. unfold calculate_consecutive_years.
  rewrite (same_years_keys add add' ds ds' Hy).
  destruct ds as [|e ds], ds' as [|e' ds']; try done.
  by pose proof (same_years_nil _ _ Hy eq_refl).
Qed.


(** X4.  [calculate_consecutive_years] depends only on the calendar years
    that have a payment: two series with payments in the same years get the
    same count, whatever the amounts are and however they are added, the
    order of the payments does not matter, and the count lies between 0 and
    the number of payments. *)
Theorem consecutive_years_depends_on_years_only :
  forall (A B : Type) (add : A -> A -> A) (add' : B -> B -> B)
    (ds : list (Date * A)) (ds' : list (Date * B)),
    ((forall y, has_payment ds y <-> has_payment ds' y) ->
       calculate_consecutive_years add ds = calculate_consecutive_years add' ds')
    /\ (forall ds2 : list (Date * A), Permutation ds ds2 ->
         calculate_consecutive_years add ds = calculate_consecutive_years add ds2)
    /\ (0 <= calculate_consecutive_years add ds <= Z.of_nat (length ds))%Z.
Proof.
  intros A B add add' ds ds'. split; [apply consecutive_years_same_years|]. split.
  - intros ds2 Hp. apply consecutive_years_same_years. intros y.
    unfold has_payment. by setoid_rewrite Hp.
  - pose proof (consecutive_years_bound add ds).
    pose proof (groupby_length add ds). lia.
Qed.

Lemma yearly_sum_scale (c : R) (ds : list (Date * R)) (y : Z) :
  yearly_sum (map (fun e => (fst e, (c * snd e)%R)) ds) y = (c * yearly_sum ds y)%R.
Proof.
  unfold yearly_sum, amounts_in.
  induction ds as [|e ds IH]; simpl; [lra|].
  rewrite !filter_cons. simpl. case_decide; simpl; rewrite IH; lra.
Qed.

Lemma scale_has_payment (c : R) (ds : list (Date * R)) (y : Z) :
  has_payment ds y <-> has_payment (map (fun e => (fst e, (c * snd e)%R)) ds) y.
Proof.
  unfold has_payment. split.
  - intros (e & He & <-). exists (fst e, (c * snd e)%R). split; [|done].
    apply list_elem_of_In, in_map_iff. exists e. split; [done|]. by apply list_elem_of_In.
  - intros (e' & He' & <-). apply list_elem_of_In, in_map_iff in He' as (e & <- & He).
    exists e. split; [by apply list_elem_of_In|done].
Qed.


(** X5.  Multiplying every dividend of a series by the same positive
    factor leaves its growth rate unchanged, for any power operator. *)
Theorem growth_rate_scale_invariant :
  forall (pow : R -> R -> R) (c : R) (ds : list (Date * R)),
    (0 < c)%R ->
    calculate_dividend_growth pow (map (fun e => (fst e, (c * snd e)%R)) ds)
    = calculate_dividend_growth pow ds.
Proof.
  intros pow c ds Hc. set (ds' := map (fun e => (fst e, (c * snd e)%R)) ds).
  assert (length ds' = length ds) as Hlen by apply length_map.
  pose proof (same_years_keys Rplus Rplus ds ds' (scale_has_payment c ds)) as Hkeys.
  assert (length (groupby_year_sum Rplus ds') = length (groupby_year_sum Rplus ds))
    as Hglen.
  { by rewrite <- (length_map fst), <- Hkeys, length_map. }
  destruct (Nat.lt_ge_cases (length ds) 4) as [H4|H4].
  { rewrite !growth_few_events; [done|lia|lia]. }
  destruct (Nat.lt_ge_cases (length (groupby_year_sum Rplus ds)) 2) as [H2|H2].
  { rewrite !growth_few_years; [done|lia|lia]. }
  destruct (growth_window pow ds H4 H2) as (y1 & y2 & Hh & Hl & ->).
  destruct (growth_window pow ds' ltac:(lia) ltac:(lia)) as (z1 & z2 & Hh' & Hl' & ->).
  rewrite <- Hkeys, Hh in Hh'. rewrite <- Hkeys, Hl in Hl'.
  injection Hh' as <-. injection Hl' as <-. cbv zeta.
  unfold ds'. rewrite !yearly_sum_scale. fold ds'. rewrite !tail_length, Hglen.
  destruct (Rle_dec (c * yearly_sum ds y1) 0), (Rle_dec (yearly_sum ds y1) 0);
    try done; try nra.
  destruct (_ <=? _)%Z; [done|].
  do 3 f_equal. field. split; lra.
Qed.

Lemma growth_rate_scale_invariant_witness :
  (0 < 2)%R
  /\ calculate_dividend_growth Rpower
       (map (fun e => (fst e, (2 * snd e)%R))
          [(mkDate 2021 3 1, 50%R); (mkDate 2021 9 1, 50%R);
           (mkDate 2022 6 1, 110%R); (mkDate 2023 6 1, 121%R)])
     = calculate_dividend_growth Rpower
         [(mkDate 2021 3 1, 50%R); (mkDate 2021 9 1, 50%R);
          (mkDate 2022 6 1, 110%R); (mkDate 2023 6 1, 121%R)].
Proof.
  split; [lra|]. apply (growth_rate_scale_invariant Rpower 2); lra.
Defined.

(** The real power against 1. *)
Lemma Rpower_vs_1 (x y : R) :
  (0 < x)%R -> (0 < y)%R ->
  (0 < Rpower x y)%R
  /\ ((1 < Rpower x y)%R <-> (1 < x)%R)
  /\ ((Rpower x y < 1)%R <-> (x < 1)%R).
Proof.
  intros Hx Hy. unfold Rpower. split; [apply exp_pos|].
  assert (forall z, (1 < exp z)%R <-> (0 < z)%R) as Hexp1.
  { intros z. rewrite <- exp_0. split; [apply exp_lt_inv|apply exp_increasing]. }
  assert (forall z, (exp z < 1)%R <-> (z < 0)%R) as Hexp2.
  { intros z. rewrite <- exp_0. split; [apply exp_lt_inv|apply exp_increasing]. }
  assert ((0 < ln x)%R <-> (1 < x)%R) as Hln1.
  { rewrite <- ln_1. split; [apply ln_lt_inv; lra|apply ln_increasing; lra]. }
  assert ((ln x < 0)%R <-> (x < 1)%R) as Hln2.
  { rewrite <- ln_1. split; [apply ln_lt_inv; lra|apply ln_increasing; lra]. }
  rewrite Hexp1, Hexp2, <- Hln1, <- Hln2. split; split; intros; nra.
Qed.


(** X6.  When the growth window is used (at least four payments, at least
    two years, positive totals in the first and the last year of the window)
    the growth rate is positive exactly when the last year's total exceeds
    the first year's, negative exactly when it is below it, and it is always
    above -100. *)
Theorem growth_rate_sign :
  forall (ds : list (Date * R)) (ys : list Z) (y_start y_end : Z),
    (4 <= length ds)%nat -> distinct_years ds ys -> (2 <= length ys)%nat ->
    head (tail 5 ys) = Some y_start -> last (tail 5 ys) = Some y_end ->
    (0 < yearly_sum ds y_start)%R -> (0 < yearly_sum ds y_end)%R ->
    ((0 < calculate_dividend_growth Rpower ds)%R
       <-> (yearly_sum ds y_start < yearly_sum ds y_end)%R)
    /\ ((calculate_dividend_growth Rpower ds < 0)%R
       <-> (yearly_sum ds y_end < yearly_sum ds y_start)%R)
    /\ (-100 < calculate_dividend_growth Rpower ds)%R.
Proof.
  intros ds ys y1 y2 H4 Hys H2 Hh Hl Hs He.
  apply (distinct_years_unique Rplus) in Hys as ->. rewrite length_map in H2.
  destruct (growth_window Rpower ds H4 H2) as (z1 & z2 & Hh' & Hl' & ->).
  rewrite Hh in Hh'. rewrite Hl in Hl'. injection Hh' as <-. injection Hl' as <-.
  cbv zeta. rewrite tail_length.
  destruct (Rle_dec (yearly_sum ds y1) 0) as [Hle|_]; [lra|].
  set (n := (Z.of_nat (Nat.min 5 (length (groupby_year_sum Rplus ds))) - 1)%Z).
  assert (1 <= n)%Z as Hn by (unfold n; lia).
  destruct (Z.leb_spec n 0) as [?|_]; [lia|].
  assert (0 < 1 / IZR n)%R as Hexp.
  { apply Rdiv_lt_0_compat; [lra|]. apply IZR_lt. lia. }
  assert (0 < yearly_sum ds y2 / yearly_sum ds y1)%R as Hratio
    by (by apply Rdiv_lt_0_compat).
  destruct (Rpower_vs_1 _ _ Hratio Hexp) as (Hpos & Hgt & Hlt).
  assert ((1 < yearly_sum ds y2 / yearly_sum ds y1)%R
          <-> (yearly_sum ds y1 < yearly_sum ds y2)%R) as Hr1.
  { split; intros H.
    - apply (Rmult_lt_compat_r (yearly_sum ds y1)) in H; [|done].
      unfold Rdiv in H. rewrite Rmult_assoc, Rinv_l in H by lra. lra.
    - apply (Rmult_lt_reg_r (yearly_sum ds y1)); [done|].
      unfold Rdiv. rewrite Rmult_assoc, Rinv_l by lra. lra. }
  assert ((yearly_sum ds y2 / yearly_sum ds y1 < 1)%R
          <-> (yearly_sum ds y2 < yearly_sum ds y1)%R) as Hr2.
  { split; intros H.
    - apply (Rmult_lt_compat_r (yearly_sum ds y1)) in H; [|done].
      unfold Rdiv in H. rewrite Rmult_assoc, Rinv_l in H by lra. lra.
    - apply (Rmult_lt_reg_r (yearly_sum ds y1)); [done|].
      unfold Rdiv. rewrite Rmult_assoc, Rinv_l by lra. lra. }
  rewrite <- Hr1, <- Hr2, <- Hgt, <- Hlt.
  split; [split; intros; lra|]. split; [split; intros; lra|lra].
Qed.

Lemma growth_rate_sign_witness :
  let ds := [(mkDate 2021 3 1, 50%R); (mkDate 2021 9 1, 50%R);
             (mkDate 2022 6 1, 110%R); (mkDate 2023 6 1, 121%R)] in
  (4 <= length ds)%nat
  /\ distinct_years ds [2021; 2022; 2023]%Z
  /\ (0 < yearly_sum ds 2021)%R /\ (0 < yearly_sum ds 2023)%R
  /\ ((0 < calculate_dividend_growth Rpower ds)%R
        <-> (yearly_sum ds 2021 < yearly_sum ds 2023)%R)
  /\ ((calculate_dividend_growth Rpower ds < 0)%R
        <-> (yearly_sum ds 2023 < yearly_sum ds 2021)%R)
  /\ (-100 < calculate_dividend_growth Rpower ds)%R.
Proof.
  cbv zeta.
  assert (distinct_years
            [(mkDate 2021 3 1, 50%R); (mkDate 2021 9 1, 50%R);
             (mkDate 2022 6 1, 110%R); (mkDate 2023 6 1, 121%R)]
            [2021; 2022; 2023]%Z) as Hys.
  { exact (groupby_distinct_years Rplus
             [(mkDate 2021 3 1, 50%R); (mkDate 2021 9 1, 50%R);
              (mkDate 2022 6 1, 110%R); (mkDate 2023 6 1, 121%R)]). }
  assert (forall y : Z, y = 2021%Z \/ y = 2023%Z ->
            (0 < yearly_sum
                   [(mkDate 2021 3 1, 50%R); (mkDate 2021 9 1, 50%R);
                    (mkDate 2022 6 1, 110%R); (mkDate 2023 6 1, 121%R)] y)%R) as Hpos.
  { intros y [-> | ->]; unfold yearly_sum, amounts_in; simpl; lra. }
  split; [simpl; lia|]. split; [exact Hys|].
  split; [apply Hpos; by left|]. split; [apply Hpos; by right|].
  apply (growth_rate_sign _ [2021; 2022; 2023]%Z 2021 2023);
    [simpl; lia|exact Hys|simpl; lia|reflexivity|reflexivity| |].
  - apply Hpos; by left.
  - apply Hpos; by right.
Defined.
End AnalyzerMore.

(** ** More on the scores, and the builder *)

Module ScoringMore.
Import Scoring ScoringFacts.
Local Open Scope Q_scope.

Lemma safety_score_rows (p : Q) (c : Z) (g y : Q) :
  exists a1 a2 a3 a4,
    payout_row p a1 /\ years_row c a2 /\ growth_row g a3 /\ yield_row y a4
    /\ calculate_safety_score p c g y = clamp (50 + a1 + a2 + a3 + a4).
Proof.
  destruct (payout_step p) as (a1 & R1 & E1), (years_step c) as (a2 & R2 & E2),
    (growth_step g) as (a3 & R3 & E3), (yield_step y) as (a4 & R4 & E4).
  exists a1, a2, a3, a4. repeat split; try done.
  unfold calculate_safety_score. cbv zeta.
  rewrite E4, E3, E2, E1. apply clamp_max_min.
Qed.

Lemma clamp_mono (a b : Z) : (a <= b)%Z -> (clamp a <= clamp b)%Z.
Proof.
  unfold clamp. intros H.
  destruct (Z.ltb_spec a 0), (Z.ltb_spec 100 a), (Z.ltb_spec b 0), (Z.ltb_spec 100 b); lia.
Qed.

Lemma payout_row_bounds (p : Q) (a : Z) : payout_row p a -> (-10 <= a <= 40)%Z.
Proof. destruct 1; lia. Qed.

Lemma years_row_mono (c c' a a' : Z) :
  (c <= c')%Z -> years_row c a -> years_row c' a' -> (0 <= a <= a')%Z /\ (a' <= 30)%Z.
Proof. intros H; destruct 1; destruct 1; lia. Qed.

Lemma growth_row_mono (g g' : Q) (a a' : Z) :
  g <= g' -> growth_row g a -> growth_row g' a' -> (-10 <= a <= a')%Z /\ (a' <= 20)%Z.
Proof.
  intros H; destruct 1; destruct 1; try lia; exfalso; Lqa.lra.
Qed.

Lemma yield_row_anti (y y' : Q) (a a' : Z) :
  y' <= y -> yield_row y a -> yield_row y' a' -> (-15 <= a <= a')%Z /\ (a' <= 0)%Z.
Proof.
  intros H; destruct 1; destruct 1; try lia; exfalso; Lqa.lra.
Qed.


(** X7.  For a given payout ratio the safety score never goes down when
    the consecutive years or the growth rate go up or the yield goes
    down. *)
Theorem safety_score_monotone :
  forall (payout_ratio : Q) (c c' : Z) (g g' y y' : Q),
    (c <= c')%Z -> g <= g' -> y' <= y ->
    (calculate_safety_score payout_ratio c g y
     <= calculate_safety_score payout_ratio c' g' y')%Z.
Proof.
  intros p c c' g g' y y' Hc Hg Hy.
  destruct (safety_score_rows p c g y) as (a1 & a2 & a3 & a4 & R1 & R2 & R3 & R4 & ->).
  destruct (safety_score_rows p c' g' y')
    as (b1 & b2 & b3 & b4 & S1 & S2 & S3 & S4 & ->).
  rewrite (payout_row_fun _ _ _ S1 R1).
  pose proof (years_row_mono _ _ _ _ Hc R2 S2).
  pose proof (growth_row_mono _ _ _ _ Hg R3 S3).
  pose proof (yield_row_anti _ _ _ _ Hy R4 S4).
  apply clamp_mono. lia.
Qed.

Lemma safety_score_monotone_witness :
  (3 <= 12)%Z /\ -2 <= 6 /\ 0.04 <= 0.09
  /\ (calculate_safety_score 40 3 (-2) 0.09 <= calculate_safety_score 40 12 6 0.04)%Z.
Proof.
  split; [lia|]. split; [Lqa.lra|]. split; [Lqa.lra|].
  apply (safety_score_monotone 40 3 12 (-2) 6 0.09 0.04); [lia|Lqa.lra|Lqa.lra].
Defined.

Lemma safety_score_min_form (p : Q) (c : Z) (g y : Q) :
  (15 <= calculate_safety_score p c g y <= 100)%Z
  /\ exists a1 a2 a3 a4,
       payout_row p a1 /\ years_row c a2 /\ growth_row g a3 /\ yield_row y a4
       /\ calculate_safety_score p c g y = Z.min 100 (50 + a1 + a2 + a3 + a4).
Proof.
  destruct (safety_score_rows p c g y) as (a1 & a2 & a3 & a4 & R1 & R2 & R3 & R4 & ->).
  pose proof (payout_row_bounds _ _ R1).
  pose proof (years_row_mono _ _ _ _ (Z.le_refl c) R2 R2).
  pose proof (growth_row_mono _ _ _ _ (Qle_refl g) R3 R3).
  pose proof (yield_row_anti _ _ _ _ (Qle_refl y) R4 R4).
  assert (clamp (50 + a1 + a2 + a3 + a4) = Z.min 100 (50 + a1 + a2 + a3 + a4)) as Hc.
  { unfold clamp.
    destruct (Z.ltb_spec (50 + a1 + a2 + a3 + a4) 0),
      (Z.ltb_spec 100 (50 + a1 + a2 + a3 + a4)); lia. }
  split; [rewrite Hc; lia|]. by exists a1, a2, a3, a4.
Qed.


(** X8.  The safety score is never below 15, so the lower clamp
    [max(0, ...)] never acts: the score is the smaller of 100 and 50 plus the
    points of the four tables.  The value 15 is reached (payout ratio 95, no
    track record, growth -6, yield 0.2). *)
Theorem safety_score_at_least_15 :
  (forall (payout_ratio : Q) (consecutive_years : Z) (growth_rate dividend_yield : Q),
     (15 <= calculate_safety_score payout_ratio consecutive_years growth_rate
              dividend_yield)%Z
     /\ exists a1 a2 a3 a4,
          payout_row payout_ratio a1 /\ years_row consecutive_years a2
          /\ growth_row growth_rate a3 /\ yield_row dividend_yield a4
          /\ calculate_safety_score payout_ratio consecutive_years growth_rate
               dividend_yield
             = Z.min 100 (50 + a1 + a2 + a3 + a4))
  /\ calculate_safety_score 95 0 (-6) 0.2 = 15%Z.
Proof.
  split; [|reflexivity]. intros p c g y.
  destruct (safety_score_min_form p c g y) as [[H15 _] Hrows]. by split.
Qed.

Tactic Notation "qcase" constr(x) constr(y) "as" ident(E) :=
  destruct (Qltb x y) eqn:E; [apply Qltb_lt in E | apply Qltb_ge in E].

Lemma yield_part (y y' : Q) :
  py_min (y * 100 * 10) 100 <= 100
  /\ (0 <= y -> 0 <= py_min (y * 100 * 10) 100)
  /\ (y <= y' -> py_min (y * 100 * 10) 100 <= py_min (y' * 100 * 10) 100)
  /\ (0.1 <= y -> py_min (y * 100 * 10) 100 == 100).
Proof.
  unfold py_min.
  qcase 100 (y * 100 * 10) as E1; qcase 100 (y' * 100 * 10) as E2;
    repeat split; intros; Lqa.lra.
Qed.

Lemma growth_part (g g' : Q) :
  0 <= py_min (py_max (g + 10) 0 * 5) 100 <= 100
  /\ (g <= g' ->
      py_min (py_max (g + 10) 0 * 5) 100 <= py_min (py_max (g' + 10) 0 * 5) 100)
  /\ (10 <= g -> py_min (py_max (g + 10) 0 * 5) 100 == 100)
  /\ (g <= -10 -> py_min (py_max (g + 10) 0 * 5) 100 == 0).
Proof.
  unfold py_min, py_max.
  qcase (g + 10) 0 as E1; qcase (g' + 10) 0 as E2.
  all: match goal with |- context [Qltb 100 (?a * 5)] => qcase 100 (a * 5) as E3 end.
  all: match goal with
       | |- context [Qltb 100 (?a * 5)] => qcase 100 (a * 5) as E4
       | _ => idtac
       end.
  all: repeat split; intros; Lqa.lra.
Qed.

Lemma track_part (c c' : Z) :
  inject_Z (Z.min (c * 4) 100) <= 100
  /\ ((0 <= c)%Z -> 0 <= inject_Z (Z.min (c * 4) 100))
  /\ ((c <= c')%Z -> inject_Z (Z.min (c * 4) 100) <= inject_Z (Z.min (c' * 4) 100))
  /\ ((25 <= c)%Z -> inject_Z (Z.min (c * 4) 100) == 100).
Proof.
  change 100 with (inject_Z 100). change 0 with (inject_Z 0).
  repeat split; intros; try (rewrite <- Zle_Qle; lia).
  replace (Z.min (c * 4) 100) with 100%Z by lia. reflexivity.
Qed.


(** X9.  For a yield and a track record that are not negative and a safety
    score from 0 to 100, the rank score lies between 0 and 100. *)
Theorem rank_score_range :
  forall (dividend_yield growth_rate : Q) (safety_score consecutive_years : Z),
    0 <= dividend_yield -> (0 <= consecutive_years)%Z ->
    (0 <= safety_score <= 100)%Z ->
    0 <= calculate_rank_score dividend_yield growth_rate safety_score consecutive_years
      <= 100.
Proof.
  intros y g s c Hy Hc Hs. unfold calculate_rank_score. cbv zeta.
  destruct (yield_part y y) as (Y1 & Y2 & _), (growth_part g g) as (G1 & _),
    (track_part c c) as (T1 & T2 & _).
  specialize (Y2 Hy). specialize (T2 Hc).
  assert (0 <= inject_Z s <= 100) as Hs'.
  { change 100 with (inject_Z 100). change 0 with (inject_Z 0).
    rewrite <- !Zle_Qle. lia. }
  Lqa.lra.
Qed.

Lemma rank_score_range_witness :
  0 <= 0.05 /\ (0 <= 12)%Z /\ (0 <= 80 <= 100)%Z
  /\ 0 <= calculate_rank_score 0.05 3 80 12 <= 100.
Proof.
  split; [Lqa.lra|]. split; [lia|]. split; [lia|].
  apply (rank_score_range 0.05 3 80 12); [Lqa.lra|lia|lia].
Defined.


(** X10.  The rank score never goes down when the yield, the growth rate,
    the safety score or the consecutive years go up. *)
Theorem rank_score_monotone :
  forall (y y' g g' : Q) (s s' c c' : Z),
    y <= y' -> g <= g' -> (s <= s')%Z -> (c <= c')%Z ->
    calculate_rank_score y g s c <= calculate_rank_score y' g' s' c'.
Proof.
  intros y y' g g' s s' c c' Hy Hg Hs Hc. unfold calculate_rank_score. cbv zeta.
  destruct (yield_part y y') as (_ & _ & Y3 & _), (growth_part g g') as (_ & G2 & _),
    (track_part c c') as (_ & _ & T3 & _).
  specialize (Y3 Hy). specialize (G2 Hg). specialize (T3 Hc).
  assert (inject_Z s <= inject_Z s') as Hs' by (by rewrite <- Zle_Qle).
  Lqa.lra.
Qed.

Lemma rank_score_monotone_witness :
  0.03 <= 0.05 /\ 1 <= 3 /\ (70 <= 80)%Z /\ (5 <= 12)%Z
  /\ calculate_rank_score 0.03 1 70 5 <= calculate_rank_score 0.05 3 80 12.
Proof.
  split; [Lqa.lra|]. split; [Lqa.lra|]. split; [lia|]. split; [lia|].
  apply (rank_score_monotone 0.03 0.05 1 3 70 80 5 12); [Lqa.lra|Lqa.lra|lia|lia].
Defined.


(** X11.  The rank score saturates: a yield above 0.1 counts as 0.1, a
    growth rate above 10 as 10 and one below -10 as -10, and more than 25
    consecutive years as 25. *)
Theorem rank_score_saturates :
  forall (y g : Q) (s c : Z),
    (0.1 <= y -> calculate_rank_score y g s c == calculate_rank_score 0.1 g s c)
    /\ (10 <= g -> calculate_rank_score y g s c == calculate_rank_score y 10 s c)
    /\ (g <= -10 -> calculate_rank_score y g s c == calculate_rank_score y (-10) s c)
    /\ ((25 <= c)%Z -> calculate_rank_score y g s c == calculate_rank_score y g s 25).
Proof.
  intros y g s c. unfold calculate_rank_score. cbv zeta.
  destruct (yield_part y y) as (_ & _ & _ & Y4),
    (yield_part 0.1 0.1) as (_ & _ & _ & Y4'),
    (growth_part g g) as (_ & _ & G3 & G4),
    (growth_part 10 10) as (_ & _ & G3' & _),
    (growth_part (-10) (-10)) as (_ & _ & _ & G4'),
    (track_part c c) as (_ & _ & _ & T4),
    (track_part 25 25) as (_ & _ & _ & T4').
  repeat split; intros H.
  - specialize (Y4 H). specialize (Y4' ltac:(Lqa.lra)). Lqa.lra.
  - specialize (G3 H). specialize (G3' ltac:(Lqa.lra)). Lqa.lra.
  - specialize (G4 H). specialize (G4' ltac:(Lqa.lra)). Lqa.lra.
  - specialize (T4 H). specialize (T4' ltac:(lia)). Lqa.lra.
Qed.
End ScoringMore.

Module BuilderFacts.
Import Analyzer AnalyzerFacts Scoring Cache Builder ScoringFacts ScoringMore.
Local Open Scope Q_scope.

Lemma categorize_stock_cases (y g : Q) (s : Z) :
  categorize_stock y g s = "immediate"
  \/ categorize_stock y g s = "longshot"
  \/ categorize_stock y g s = "balanced".
Proof.
  unfold categorize_stock.
  destruct (_ && _); [by left|]. destruct (_ && _); [right; by left|right; by right].
Qed.

(** The builder case by case. *)
Lemma builder_cases (fromtimestamp : Z -> result string) (info : result Info)
    (dividends : result (list (Date * Q))) (growth_rate : Q) :
  let built :=
    calculate_dividend_metrics_scores fromtimestamp info dividends growth_rate in
  match info with
  | Raise _ => built = None
  | Ok i =>
      if Qeq_bool (or_zero (dividendYield i)) 0 then built = None
      else
        match dividends with
        | Raise _ => built = None
        | Ok [] => built = None
        | Ok ds =>
            let c := calculate_consecutive_years Qplus ds in
            let s := calculate_safety_score (or_zero (payoutRatio i)) c growth_rate
                       (or_zero (dividendYield i)) in
            let record x :=
              mkScored x c s
                (calculate_rank_score (or_zero (dividendYield i)) growth_rate s c)
                (categorize_stock (or_zero (dividendYield i)) growth_rate s)
                (dividend_history ds) in
            match exDividendDate i with
            | None => built = Some (record VNone)
            | Some t =>
                if (t =? 0)%Z then built = Some (record (VNum 0))
                else match fromtimestamp t with
                     | Ok day => built = Some (record (VStr day))
                     | Raise _ => built = None
                     end
            end
        end
  end.
Proof.
  unfold calculate_dividend_metrics_scores, calculate_dividend_metrics_body.
  cbv zeta. destruct info as [i|e]; [|done]. cbn [mbind result_bind].
  destruct (Qeq_bool (or_zero (dividendYield i)) 0); [done|].
  destruct dividends as [[|d ds]|e]; [done| |done]. cbn [mbind result_bind].
  destruct (exDividendDate i) as [t|]; [|done].
  destruct (t =? 0)%Z; [done|]. by destruct (fromtimestamp t).
Qed.

Lemma built_record_invariants (x : value) (i : Info) (ds : list (Date * Q)) (g : Q) :
  ds <> [] ->
  let c := calculate_consecutive_years Qplus ds in
  let s := calculate_safety_score (or_zero (payoutRatio i)) c g
             (or_zero (dividendYield i)) in
  let r := mkScored x c s
             (calculate_rank_score (or_zero (dividendYield i)) g s c)
             (categorize_stock (or_zero (dividendYield i)) g s)
             (dividend_history ds) in
  (1 <= sc_consecutiveYears r <= Z.of_nat (length ds))%Z
  /\ (15 <= sc_safetyScore r <= 100)%Z
  /\ (1 <= length (sc_dividendHistory r) <= 400)%nat
  /\ (sc_category r = "immediate" \/ sc_category r = "longshot"
      \/ sc_category r = "balanced").
Proof.
  intros Hne. cbv zeta.
  cbn [sc_consecutiveYears sc_safetyScore sc_dividendHistory sc_category].
  split.
  { destruct (consecutive_years_run Qplus ds Hne) as (m & _ & H1 & _).
    pose proof (AnalyzerMore.consecutive_years_bound Qplus ds).
    pose proof (AnalyzerMore.groupby_length Qplus ds). lia. }
  split; [apply safety_score_min_form|].
  split; [|apply categorize_stock_cases].
  unfold dividend_history. rewrite tail_length.
  destruct ds; [done|]. cbn [length]. lia.
Qed.

(** X12.  Every exception in the body of the builder gives no record.  On
    an [info] with numeric entries and a dated series of amounts the builder
    returns no record exactly when the provider raises on [info], the yield
    is missing or zero, the provider raises on the dividends, the series is
    empty, or the conversion of a non-zero ex-dividend timestamp raises.  In
    a record it returns, [consecutiveYears] is at least 1 and at most the
    number of payments, [safetyScore] lies between 15 and 100,
    [dividendHistory] has between 1 and 400 entries and [category] is one of
    the three category names. *)
Theorem builder_record_invariants :
  forall (fromtimestamp : Z -> result string) (info : result Info)
    (dividends : result (list (Date * Q))) (growth_rate : Q),
    let built :=
      calculate_dividend_metrics_scores fromtimestamp info dividends growth_rate in
    (built = None <->
       (exists e, info = Raise e)
       \/ exists i, info = Ok i
            /\ (or_zero (dividendYield i) == 0
                \/ (exists e, dividends = Raise e)
                \/ dividends = Ok []
                \/ exists t e, exDividendDate i = Some t /\ t <> 0%Z
                               /\ fromtimestamp t = Raise e))
    /\ forall r, built = Some r ->
         exists i ds, info = Ok i /\ dividends = Ok ds
           /\ (1 <= sc_consecutiveYears r <= Z.of_nat (length ds))%Z
           /\ (15 <= sc_safetyScore r <= 100)%Z
           /\ (1 <= length (sc_dividendHistory r) <= 400)%nat
           /\ (sc_category r = "immediate" \/ sc_category r = "longshot"
               \/ sc_category r = "balanced").
Proof.
  intros ft info dividends g.
  pose proof (builder_cases ft info dividends g) as Hc. cbv zeta in *.
  set (built := calculate_dividend_metrics_scores ft info dividends g) in *.
  clearbody built.
  destruct info as [i|e].
  2: { rewrite Hc. split; [|done]. split; [|done]. intros _. left. by exists e. }
  destruct (Qeq_bool (or_zero (dividendYield i)) 0) eqn:E.
  { apply Qeq_bool_iff in E. rewrite Hc. split; [|done]. split; [|done].
    intros _. right. exists i. split; [done|]. by left. }
  apply Qeq_bool_neq in E.
  destruct dividends as [[|d ds]|e].
  - rewrite Hc. split; [|done]. split; [|done]. intros _.
    right. exists i. split; [done|]. right. right. by left.
  - assert (d :: ds <> []) as Hne by done.
    destruct (exDividendDate i) as [t|] eqn:Et.
    + destruct (Z.eqb_spec t 0) as [->|Hnz].
      * rewrite Hc. split.
        -- split; [done|].
           intros [[e ?]|(i0 & [= <-] & [?|[[e ?]|[?|(t & e & Ht & ? & _)]]])];
             try done. rewrite Et in Ht. by injection Ht as <-.
        -- intros r [= <-]. exists i, (d :: ds). split; [done|]. split; [done|].
           exact (built_record_invariants _ i (d :: ds) g Hne).
      * destruct (ft t) as [day|e] eqn:Eft.
        -- rewrite Hc. split.
           ++ split; [done|].
              intros [[e ?]|(i0 & [= <-] & [?|[[e ?]|[?|(t' & e & Ht & _ & He)]]])];
                try done. rewrite Et in Ht. injection Ht as <-. congruence.
           ++ intros r [= <-]. exists i, (d :: ds). split; [done|]. split; [done|].
              exact (built_record_invariants _ i (d :: ds) g Hne).
        -- rewrite Hc. split; [|done]. split; [|done]. intros _.
           right. exists i. split; [done|]. right. right. right. by exists t, e.
    + rewrite Hc. split.
      * split; [done|].
        intros [[e ?]|(i0 & [= <-] & [?|[[e ?]|[?|(t & e & Ht & _)]]])];
          try done. by rewrite Et in Ht.
      * intros r [= <-]. exists i, (d :: ds). split; [done|]. split; [done|].
        exact (built_record_invariants _ i (d :: ds) g Hne).
  - rewrite Hc. split; [|done]. split; [|done]. intros _.
    right. exists i. split; [done|]. right. left. by exists e.
Qed.

(** X13.  The builder hands the payout ratio to the safety score as the
    provider reports it.  For a stock with a yield of at least 0.03 and a
    payout ratio that is not zero and below 30, every record the builder
    returns has a safety score of at least 50 and the category
    ["immediate"], whatever the growth rate and the dividends; and it returns
    a record when the series is not empty and the conversion of the
    ex-dividend timestamp does not raise. *)
Theorem builder_immediate_whatever_payout :
  forall (fromtimestamp : Z -> result string) (i : Info)
    (dividends : result (list (Date * Q))) (growth_rate : Q),
    0.03 <= or_zero (dividendYield i) ->
    ~ or_zero (payoutRatio i) == 0 -> or_zero (payoutRatio i) < 30 ->
    let built :=
      calculate_dividend_metrics_scores fromtimestamp (Ok i) dividends growth_rate in
    (forall r, built = Some r ->
       (50 <= sc_safetyScore r)%Z /\ sc_category r = "immediate")
    /\ (forall ds, dividends = Ok ds -> ds <> [] ->
        (forall t, exDividendDate i = Some t -> t <> 0%Z ->
           exists day, fromtimestamp t = Ok day) ->
        exists r, built = Some r).
Proof.
  intros ft i dividends g Hy Hp0 Hp30.
  pose proof (builder_cases ft (Ok i) dividends g) as Hc. cbv beta iota zeta in Hc.
  cbv zeta.
  set (built := calculate_dividend_metrics_scores ft (Ok i) dividends g) in *.
  clearbody built.
  destruct (Qeq_bool (or_zero (dividendYield i)) 0) eqn:E.
  { apply Qeq_bool_iff in E. exfalso. Lqa.lra. }
  assert (forall c,
    (50 <= calculate_safety_score (or_zero (payoutRatio i)) c g
             (or_zero (dividendYield i)))%Z
    /\ categorize_stock (or_zero (dividendYield i)) g
         (calculate_safety_score (or_zero (payoutRatio i)) c g
            (or_zero (dividendYield i))) = "immediate") as Himm.
  { intros c.
    destruct (safety_score_rows (or_zero (payoutRatio i)) c g (or_zero (dividendYield i)))
      as (a1 & a2 & a3 & a4 & R1 & R2 & R3 & R4 & Hs).
    rewrite (payout_row_fun _ _ _ R1 (payout_low _ Hp0 Hp30)) in Hs.
    pose proof (years_row_mono _ _ _ _ (Z.le_refl c) R2 R2).
    pose proof (growth_row_mono _ _ _ _ (Qle_refl g) R3 R3).
    pose proof (yield_row_anti _ _ _ _ (Qle_refl (or_zero (dividendYield i))) R4 R4).
    assert (50 <= calculate_safety_score (or_zero (payoutRatio i)) c g
                    (or_zero (dividendYield i)))%Z as H50.
    { rewrite Hs. unfold clamp.
      destruct (Z.ltb_spec (50 + 25 + a2 + a3 + a4) 0),
        (Z.ltb_spec 100 (50 + 25 + a2 + a3 + a4)); lia. }
    split; [exact H50|]. unfold categorize_stock.
    apply Qle_bool_iff in Hy. rewrite Hy.
    destruct (Z.geb_spec (calculate_safety_score (or_zero (payoutRatio i)) c g
                            (or_zero (dividendYield i))) 50); [done|lia]. }
  destruct dividends as [[|d ds]|e].
  - rewrite Hc. split; [done|]. by intros ds [= <-].
  - destruct (exDividendDate i) as [t|] eqn:Et.
    + destruct (Z.eqb_spec t 0) as [->|Hnz].
      * rewrite Hc. split; [intros r [= <-]; apply Himm|]. intros. by eexists.
      * destruct (ft t) as [day|e] eqn:Eft.
        -- rewrite Hc. split; [intros r [= <-]; apply Himm|]. intros. by eexists.
        -- rewrite Hc. split; [done|]. intros ds' _ _ Hft.
           destruct (Hft t eq_refl Hnz) as [day ?]. congruence.
    + rewrite Hc. split; [intros r [= <-]; apply Himm|]. intros. by eexists.
  - rewrite Hc. split; [done|]. by intros ds.
Qed.

Lemma builder_immediate_whatever_payout_witness :
  let i := mkInfo (Some 0.04) (Some 0.95) (Some 1700000000%Z) in
  let fromtimestamp (t : Z) : result string := Ok "2023-11-14"%string in
  0.03 <= or_zero (dividendYield i)
  /\ ~ or_zero (payoutRatio i) == 0 /\ or_zero (payoutRatio i) < 30
  /\ forall r,
       calculate_dividend_metrics_scores fromtimestamp (Ok i)
         (Ok [(mkDate 2024 3 1, 0.5)]) (-8) = Some r ->
       (50 <= sc_safetyScore r)%Z /\ sc_category r = "immediate"%string.
Proof.
  cbv zeta. split; [simpl; Lqa.lra|]. split; [simpl; Lqa.lra|].
  split; [simpl; Lqa.lra|].
  apply (builder_immediate_whatever_payout (fun _ => Ok "2023-11-14"%string)
           (mkInfo (Some 0.04) (Some 0.95) (Some 1700000000%Z))
           (Ok [(mkDate 2024 3 1, 0.5)]) (-8)); simpl; Lqa.lra.
Defined.
End BuilderFacts.

(** ** The historical store *)

Module HistoryFacts.
Import Cache History CacheFacts.

Lemma tail_app_tail {A} (n : nat) (l m : list A) :
  Analyzer.tail n (Analyzer.tail n l ++ m) = Analyzer.tail n (l ++ m).
Proof.
  unfold Analyzer.tail. rewrite !length_app, length_drop, !skipn_app, length_drop.
  rewrite drop_drop. f_equal; f_equal; lia.
Qed.

Lemma tail_short {A} (n : nat) (l : list A) :
  (length l <= n)%nat -> Analyzer.tail n l = l.
Proof. intros H. unfold Analyzer.tail. by replace (length l - n)%nat with 0%nat by lia. Qed.


(** [add_point] returns exactly on a record that holds a string ticker and
    the four values. *)
Lemma add_point_Some (today : Z) (h : Historical) (stock : Stock)
    (t : string) (pt : HistoricalPoint) :
  stock_point today stock = Some (t, pt) ->
  add_point today h stock
  = Ok (<[t := Analyzer.tail 30 (default [] (h !! t) ++ [pt])]> h).
Proof.
  unfold stock_point, add_point, getitem. intros H.
  destruct (stock !! "ticker") as [[| |ticker|]|]; try done.
  destruct (stock !! "dividendYield") as [y|]; [|done].
  destruct (stock !! "price") as [p|]; [|done].
  destruct (stock !! "growthRate") as [g|]; [|done].
  destruct (stock !! "safetyScore") as [s|]; [|done].
  injection H as <- <-. cbn [mbind result_bind].
  destruct (h !! ticker) as [series|] eqn:E.
  - by rewrite E.
  - by rewrite lookup_insert_eq, insert_insert_eq.
Qed.

Lemma add_point_None (today : Z) (h : Historical) (stock : Stock) :
  stock_point today stock = None -> exists e, add_point today h stock = Raise e.
Proof.
  unfold stock_point, add_point, getitem. intros H.
  destruct (stock !! "ticker") as [[| |ticker|]|]; cbn [mbind result_bind];
    try by eexists.
  destruct (stock !! "dividendYield") as [y|]; cbn [mbind result_bind]; [|by eexists].
  destruct (stock !! "price") as [p|]; cbn [mbind result_bind]; [|by eexists].
  destruct (stock !! "growthRate") as [g|]; cbn [mbind result_bind]; [|by eexists].
  destruct (stock !! "safetyScore") as [s|]; cbn [mbind result_bind]; [|by eexists].
  done.
Qed.

Lemma foldM_add_point_raises (today : Z) (stocks : list Stock) (h : Historical) :
  (exists e, foldM (add_point today) h stocks = Raise e)
  <-> Exists (fun s => stock_point today s = None) stocks.
Proof.
  revert h. induction stocks as [|s stocks IH]; intros h; simpl.
  - split; [by intros [e ?]|by intros ?%Exists_nil].
  - rewrite Exists_cons. destruct (stock_point today s) as [[t pt]|] eqn:E.
    + rewrite (add_point_Some _ _ _ _ _ E). cbn [mbind result_bind].
      rewrite IH. split; [by right|by intros [?|?]].
    + destruct (add_point_None today h s E) as [e ->]. cbn [mbind result_bind].
      split; [by left|by eexists].
Qed.

Lemma points_for_cons (today : Z) (ticker : string) (s : Stock) (stocks : list Stock) :
  points_for today ticker (s :: stocks)
  = match stock_point today s with
    | Some (t, pt) =>
        if String.eqb t ticker then pt :: points_for today ticker stocks
        else points_for today ticker stocks
    | None => points_for today ticker stocks
    end.
Proof.
  unfold points_for. cbn [omap list_omap].
  destruct (stock_point today s) as [[t pt]|]; [|done]. by destruct (String.eqb t ticker).
Qed.

(** The historical store after the loop of [save_snapshot]. *)
Lemma foldM_add_point_lookup (today : Z) (stocks : list Stock) (h h' : Historical)
    (ticker : string) :
  foldM (add_point today) h stocks = Ok h' ->
  h' !! ticker
  = match points_for today ticker stocks with
    | [] => h !! ticker
    | pts => Some (Analyzer.tail 30 (default [] (h !! ticker) ++ pts))
    end.
Proof.
  revert h. induction stocks as [|s stocks IH]; intros h; cbn [foldM].
  - by intros [= <-].
  - rewrite points_for_cons.
    destruct (stock_point today s) as [[t pt]|] eqn:E.
    + rewrite (add_point_Some _ _ _ _ _ E). cbn [mbind result_bind]. intros Hf.
      rewrite (IH _ Hf). destruct (String.eqb_spec t ticker) as [->|Hne].
      * rewrite lookup_insert_eq. simpl.
        destruct (points_for today ticker stocks) as [|p pts]; [done|].
        by rewrite tail_app_tail, <- app_assoc.
      * by rewrite lookup_insert_ne.
    + destruct (add_point_None today h s E) as [e ->]. done.
Qed.

Lemma foldM_app {A S} (f : S -> A -> result S) (s : S) (l m : list A) :
  foldM f s (l ++ m) = (s' ← foldM f s l; foldM f s' m).
Proof.
  revert s. induction l as [|x l IH]; intros s; simpl; [done|].
  destruct (f s x); simpl; [apply IH|done].
Qed.

Lemma save_snapshot_complete (t1 t2 : Z) (stocks : list Stock) (st : Store) :
  Forall (fun s => is_Some (stock_point (day_of t2) s)) stocks ->
  exists h',
    foldM (add_point (day_of t2)) (load_historical_data st) stocks = Ok h'
    /\ save_snapshot t1 t2 stocks st
       = (mkStore (Some (mkSnapshot t1 stocks)) (Some h'), Ok ()).
Proof.
  intros Hall. unfold save_snapshot.
  change (load_historical_data (mkStore _ (historical_file st)))
    with (load_historical_data st).
  destruct (foldM _ _ stocks) as [h'|e] eqn:Hf.
  - by exists h'.
  - exfalso. assert (exists e, foldM (add_point (day_of t2)) (load_historical_data st)
                                stocks = Raise e) as Hr by by eexists.
    apply foldM_add_point_raises, Exists_exists in Hr as (s & Hs & Hnone).
    rewrite Forall_forall in Hall. destruct (Hall s Hs) as [? ?]. congruence.
Qed.






Lemma stock_point_None (today : Z) (s : Stock) :
  (forall v, s !! "ticker" = Some v -> exists t, v = VStr t) ->
  stock_point today s = None <-> exists k, k ∈ point_keys /\ s !! k = None.
Proof.
  intros Hstr. unfold stock_point, point_keys. split.
  - destruct (s !! "ticker") as [v|] eqn:Et.
    2: { intros _. exists "ticker". split; [by left|done]. }
    destruct (Hstr v eq_refl) as [t ->].
    destruct (s !! "dividendYield") eqn:E1.
    2: { intros _. exists "dividendYield". split; [rewrite !elem_of_cons; repeat ((by left) || right)|done]. }
    destruct (s !! "price") eqn:E2.
    2: { intros _. exists "price". split; [rewrite !elem_of_cons; repeat ((by left) || right)|done]. }
    destruct (s !! "growthRate") eqn:E3.
    2: { intros _. exists "growthRate". split; [rewrite !elem_of_cons; repeat ((by left) || right)|done]. }
    destruct (s !! "safetyScore") eqn:E4; [done|].
    intros _. exists "safetyScore". split; [rewrite !elem_of_cons; repeat ((by left) || right)|done].
  - intros (k & Hk & Hnone). rewrite !elem_of_cons, elem_of_nil in Hk.
    destruct Hk as [->|[->|[->|[->|[->|[]]]]]]; rewrite Hnone; try done.
    + by destruct (s !! "ticker") as [[]|].
    + by destruct (s !! "ticker") as [[]|], (s !! "dividendYield").
    + by destruct (s !! "ticker") as [[]|], (s !! "dividendYield"), (s !! "price").
    + by destruct (s !! "ticker") as [[]|], (s !! "dividendYield"), (s !! "price"),
        (s !! "growthRate").
Qed.

(** X15.  On records whose ticker, where there is one, is a string,
    [save_snapshot] always replaces the snapshot file.  It raises exactly
    when some record lacks the ticker or one of the four values it reads; the
    exception is [KeyError], and the historical file is then left as it was
    although the snapshot file has been replaced. *)
Theorem save_snapshot_not_atomic :
  forall (now_snapshot now_today : Z) (stocks : list Stock) (st : Store),
    Forall (fun s : Stock => forall v, s !! "ticker" = Some v -> exists t, v = VStr t)
      stocks ->
    snapshot_file (fst (save_snapshot now_snapshot now_today stocks st))
    = Some (mkSnapshot now_snapshot stocks)
    /\ ((exists e, snd (save_snapshot now_snapshot now_today stocks st) = Raise e)
        <-> Exists (fun s : Stock => exists k, k ∈ point_keys /\ s !! k = None) stocks)
    /\ ((exists e, snd (save_snapshot now_snapshot now_today stocks st) = Raise e) ->
        snd (save_snapshot now_snapshot now_today stocks st) = Raise KeyError
        /\ historical_file (fst (save_snapshot now_snapshot now_today stocks st))
           = historical_file st).
Proof.
  intros t1 t2 stocks st Hstr.
  assert (Exists (fun s : Stock => exists k, k ∈ point_keys /\ s !! k = None) stocks
          <-> Exists (fun s => stock_point (day_of t2) s = None) stocks) as ->.
  { rewrite !Exists_exists. rewrite Forall_forall in Hstr.
    split; intros (s & Hin & H); exists s; (split; [done|]);
      by apply (stock_point_None (day_of t2) s (Hstr s Hin)). }
  unfold save_snapshot.
  change (load_historical_data (mkStore _ (historical_file st)))
    with (load_historical_data st).
  rewrite <- (foldM_add_point_raises (day_of t2) stocks (load_historical_data st)).
  destruct (foldM _ _ stocks) as [h'|e] eqn:Hf; simpl.
  - split; [done|]. split; [|by intros [e ?]]. split; by intros [e ?].
  - split; [done|]. split; [split; intros _; by eexists|].
    intros _. split; [|done]. f_equal.
    clear -Hstr Hf. revert Hf. generalize (load_historical_data st).
    induction Hstr as [|s stocks Hs Hall IH]; intros h; cbn [foldM]; [done|].
    destruct (add_point (day_of t2) h s) as [h1|e1] eqn:Ha; cbn [mbind result_bind].
    + apply IH.
    + intros [= <-]. revert Ha. unfold add_point, getitem.
      destruct (s !! "ticker") as [v|] eqn:Et; cbn [mbind result_bind]; [|by intros [= <-]].
      destruct (Hs v eq_refl) as [t ->].
      destruct (s !! "dividendYield"); cbn [mbind result_bind]; [|by intros [= <-]].
      destruct (s !! "price"); cbn [mbind result_bind]; [|by intros [= <-]].
      destruct (s !! "growthRate"); cbn [mbind result_bind]; [|by intros [= <-]].
      destruct (s !! "safetyScore"); cbn [mbind result_bind]; [|by intros [= <-]].
      done.
Qed.

Lemma save_snapshot_not_atomic_witness :
  let stocks : list Stock := [full_stock "KO" 60; {[ "ticker" := VStr "PEP" ]}] in
  let st := mkStore None None in
  Forall (fun s : Stock => forall v, s !! "ticker" = Some v -> exists t, v = VStr t)
    stocks
  /\ snapshot_file (fst (save_snapshot 0 0 stocks st)) = Some (mkSnapshot 0 stocks)
  /\ snd (save_snapshot 0 0 stocks st) = Raise KeyError
  /\ historical_file (fst (save_snapshot 0 0 stocks st)) = None.
Proof.
  cbv zeta.
  assert (Forall (fun s : Stock => forall v, s !! "ticker" = Some v -> exists t, v = VStr t)
            [full_stock "KO" 60; {[ "ticker" := VStr "PEP" ]}]) as Hstr.
  { repeat constructor; intros v [= <-]; by eexists. }
  split; [exact Hstr|].
  destruct (save_snapshot_not_atomic 0 0
              [full_stock "KO" 60; {[ "ticker" := VStr "PEP" ]}] (mkStore None None) Hstr)
    as (Hfile & _ & Hraise).
  split; [exact Hfile|]. apply Hraise. by eexists.
Defined.


(** X16.  Two successive [save_snapshot] runs act on the historical store
    as one run that appends the points of the first and then the points of
    the second: cutting to 30 points after each append loses nothing that the
    final cut would keep. *)
Theorem save_snapshot_twice :
  forall (t1 t2 t1' t2' : Z) (stocks stocks' : list Stock) (st : Store),
    Forall (fun s => is_Some (stock_point (day_of t2) s)) stocks ->
    Forall (fun s => is_Some (stock_point (day_of t2') s)) stocks' ->
    forall ticker,
      let st1 := fst (save_snapshot t1 t2 stocks st) in
      let st2 := fst (save_snapshot t1' t2' stocks' st1) in
      load_historical_data st2 !! ticker
      = match points_for (day_of t2) ticker stocks
              ++ points_for (day_of t2') ticker stocks' with
        | [] => load_historical_data st !! ticker
        | pts =>
            Some (Analyzer.tail 30
                    (default [] (load_historical_data st !! ticker) ++ pts))
        end.
Proof.
  intros t1 t2 t1' t2' stocks stocks' st Hall Hall' ticker. cbv zeta.
  destruct (save_snapshot_complete t1 t2 stocks st Hall) as (h1 & Hf1 & ->).
  cbn [fst].
  destruct (save_snapshot_complete t1' t2' stocks'
              (mkStore (Some (mkSnapshot t1 stocks)) (Some h1)) Hall')
    as (h2 & Hf2 & ->).
  cbn [fst load_historical_data historical_file] in *.
  rewrite (foldM_add_point_lookup _ _ _ _ ticker Hf2),
    (foldM_add_point_lookup _ _ _ _ ticker Hf1).
  destruct (points_for (day_of t2) ticker stocks) as [|p pts],
    (points_for (day_of t2') ticker stocks') as [|p' pts']; simpl; try done.
  - by rewrite app_nil_r.
  - rewrite tail_app_tail, <- app_assoc. done.
Qed.

Lemma save_snapshot_twice_witness :
  Forall (fun s => is_Some (stock_point (day_of 0) s)) [full_stock "T" 10]
  /\ Forall (fun s => is_Some (stock_point (day_of (hours 24)) s)) [full_stock "T" 11]
  /\ load_historical_data
       (fst (save_snapshot (hours 24) (hours 24) [full_stock "T" 11]
               (fst (save_snapshot 0 0 [full_stock "T" 10] (mkStore None None)))))
       !! "T"
     = Some [mkPoint 0 (VNum 3) (VNum 10) (VNum 1) (VNum 70);
             mkPoint 1 (VNum 3) (VNum 11) (VNum 1) (VNum 70)].
Proof.
  assert (Forall (fun s => is_Some (stock_point (day_of 0) s)) [full_stock "T" 10])
    as H1 by (repeat constructor; by eexists).
  assert (Forall (fun s => is_Some (stock_point (day_of (hours 24)) s))
            [full_stock "T" 11]) as H2 by (repeat constructor; by eexists).
  split; [exact H1|]. split; [exact H2|].
  exact (save_snapshot_twice 0 0 (hours 24) (hours 24) [full_stock "T" 10]
           [full_stock "T" 11] (mkStore None None) H1 H2 "T").
Defined.

Lemma save_snapshot_file (t1 t2 : Z) (stocks : list Stock) (st : Store) :
  snapshot_file (fst (save_snapshot t1 t2 stocks st)) = Some (mkSnapshot t1 stocks).
Proof. unfold save_snapshot. by destruct (foldM _ _ stocks). Qed.


(** X17.  After a refresh run that found at least one record, a query less
    than 24 hours later is answered from exactly the records of that run,
    whether or not it forces a refresh; forcing only schedules a new run. *)
Theorem refresh_then_query :
  forall (provider : string -> option (string -> value)) (tickers : list string)
    (now_snapshot now_today : Z) (st : Store) (force_refresh : bool) (q : Query)
    (now_load now_reply : Z),
    aggregate provider tickers <> [] ->
    (now_load - now_snapshot < hours 24)%Z ->
    get_dividend_stocks force_refresh q now_load now_reply
      (fst (refresh_data_background provider tickers now_snapshot now_today st))
    = (force_refresh,
       apply_filters_and_sort (aggregate provider tickers) q now_reply).
Proof.
  intros provider tickers t1 t2 st force q now now' Hne Hfresh.
  unfold refresh_data_background, get_dividend_stocks.
  destruct (aggregate provider tickers) as [|s l] eqn:Hagg; [done|].
  assert (load_cached_snapshot now (fst (save_snapshot t1 t2 (s :: l) st))
          = Some (mkSnapshot t1 (s :: l))) as ->.
  { apply load_cached_snapshot_Some. by rewrite save_snapshot_file. }
  by destruct force.
Qed.

Lemma refresh_then_query_witness :
  aggregate one_provider ["AAPL"; "MSFT"] <> []
  /\ (hours 1 - 0 < hours 24)%Z
  /\ get_dividend_stocks true (by_field "rankScore") (hours 1) (hours 1)
       (fst (refresh_data_background one_provider ["AAPL"; "MSFT"] 0 0
               (mkStore None None)))
     = (true,
        apply_filters_and_sort (aggregate one_provider ["AAPL"; "MSFT"])
          (by_field "rankScore") (hours 1)).
Proof.
  assert (aggregate one_provider ["AAPL"; "MSFT"] <> []) as Hne by done.
  split; [exact Hne|]. split; [done|].
  by apply (refresh_then_query one_provider ["AAPL"; "MSFT"] 0 0 (mkStore None None)
              true (by_field "rankScore") (hours 1) (hours 1)).
Defined.
End HistoryFacts.

(** ** The filters *)

Module FilterFacts.
Import Cache Filter CacheFacts SortFacts.

Lemma filterM_ok {A} (p : A -> result bool) (l l' : list A) :
  filterM p l = Ok l' ->
  sublist l' l
  /\ (forall x, x ∈ l' <-> x ∈ l /\ p x = Ok true).
Proof.
  revert l'. induction l as [|x l IH]; intros l'; simpl.
  - intros [= <-]. split; [done|]. intros y. rewrite elem_of_nil. tauto.
  - destruct (p x) as [b|e] eqn:Hp; simpl; [|done].
    destruct (filterM p l) as [rest|e]; simpl; [|done].
    destruct (IH rest eq_refl) as [Hsub Hmem]. intros [= <-].
    destruct b.
    + split; [by constructor|]. intros y. rewrite !elem_of_cons, Hmem.
      split; [intros [->|[? ?]]; auto|intros [[->|?] ?]; auto].
    + split; [by constructor|]. intros y. rewrite elem_of_cons, Hmem.
      split; [intros [? ?]; auto|]. intros [[->|?] ?]; [congruence|auto].
Qed.

Lemma filterM_all {A} (p : A -> result bool) (l : list A) :
  Forall (fun x => p x = Ok true) l -> filterM p l = Ok l.
Proof.
  induction 1 as [|x l Hx Hl IH]; simpl; [done|]. by rewrite Hx, IH.
Qed.

(** One filter of [apply_filters]: skipped without its argument. *)
Lemma stage_ok {X} (o : option X) (p : X -> Stock -> result bool)
    (P : X -> Stock -> Prop) (l l' : list Stock) :
  (forall x s, p x s = Ok true <-> P x s) ->
  match o with Some x => filterM (p x) l | None => Ok l end = Ok l' ->
  sublist l' l
  /\ (forall s, s ∈ l' <-> s ∈ l /\ (forall x, o = Some x -> P x s)).
Proof.
  intros HP. destruct o as [x|].
  - intros [Hsub Hmem]%filterM_ok. split; [done|]. intros s.
    rewrite Hmem, HP. split; intros [? H]; (split; [done|]).
    + by intros ? [= <-].
    + by apply H.
  - intros [= <-]. split; [done|]. intros s. split; [|tauto].
    intros ?. split; [done|]. by intros.
Qed.

Lemma stage_all {X} (o : option X) (p : X -> Stock -> result bool)
    (P : X -> Stock -> Prop) (l : list Stock) :
  (forall x s, p x s = Ok true <-> P x s) ->
  Forall (fun s => forall x, o = Some x -> P x s) l ->
  match o with Some x => filterM (p x) l | None => Ok l end = Ok l.
Proof.
  intros HP Hall. destruct o as [x|]; [|done].
  apply filterM_all. eapply Forall_impl; [exact Hall|].
  intros s Hs. simpl in *. by apply HP, Hs.
Qed.

Lemma category_test (c : string) (s : Stock) :
  (v ← getitem s "category"; Ok (eq_str v c)) = Ok true
  <-> s !! "category" = Some (VStr c).
Proof.
  unfold getitem. destruct (s !! "category") as [v|]; simpl; [|split; done].
  destruct v as [|n|x|l]; simpl; try (split; done).
  destruct (String.eqb_spec x c) as [->|Hne]; split; try done.
  intros [= ->]. done.
Qed.

Lemma ge_test (key : string) (m : Q) (s : Stock) :
  (v ← getitem s key; ge_num v m) = Ok true
  <-> exists v, s !! key = Some (VNum v) /\ (m <= v)%Q.
Proof.
  unfold getitem. destruct (s !! key) as [v|]; simpl; [|split; [done|by intros (? & ? & ?)]].
  destruct v as [|n|x|l]; simpl; try (split; [done|by intros (? & ? & ?)]).
  split.
  - intros [= H]. exists n. split; [done|]. by apply Qle_bool_iff.
  - intros (v & [= <-] & H). f_equal. by apply Qle_bool_iff.
Qed.

Lemma le_test (key : string) (m : Q) (s : Stock) :
  (v ← getitem s key; le_num v m) = Ok true
  <-> exists v, s !! key = Some (VNum v) /\ (v <= m)%Q.
Proof.
  unfold getitem. destruct (s !! key) as [v|]; simpl; [|split; [done|by intros (? & ? & ?)]].
  destruct v as [|n|x|l]; simpl; try (split; [done|by intros (? & ? & ?)]).
  split.
  - intros [= H]. exists n. split; [done|]. by apply Qle_bool_iff.
  - intros (v & [= <-] & H). f_equal. by apply Qle_bool_iff.
Qed.

Lemma sector_test (c : string) (s : Stock) :
  (v ← getitem s "sector"; eq_lower v c) = Ok true
  <-> exists x, s !! "sector" = Some (VStr x) /\ lower x = lower c.
Proof.
  unfold getitem. destruct (s !! "sector") as [v|]; simpl; [|split; [done|by intros (? & ? & ?)]].
  destruct v as [|n|x|l]; simpl; try (split; [done|by intros (? & ? & ?)]).
  split.
  - intros [= H]. exists x. split; [done|]. by apply String.eqb_eq.
  - intros (v & [= <-] & H). f_equal. by apply String.eqb_eq.
Qed.

Lemma apply_filters_ok (q : Query) (stocks filtered : list Stock) :
  apply_filters q stocks = Ok filtered ->
  sublist filtered stocks
  /\ (forall s, s ∈ filtered <-> s ∈ stocks /\ passes q s).
Proof.
  unfold apply_filters.
  destruct (match given (category q) with Some c => _ | None => _ end)
    as [l1|] eqn:E1; simpl; [|done].
  destruct (match min_yield q with Some m => _ | None => _ end)
    as [l2|] eqn:E2; simpl; [|done].
  destruct (match max_yield q with Some m => _ | None => _ end)
    as [l3|] eqn:E3; simpl; [|done].
  destruct (match min_safety q with Some m => _ | None => _ end)
    as [l4|] eqn:E4; simpl; [|done].
  intros E5.
  apply (stage_ok _ _ _ _ _ category_test) in E1 as [S1 M1].
  apply (stage_ok _ _ _ _ _ (ge_test "dividendYield")) in E2 as [S2 M2].
  apply (stage_ok _ _ _ _ _ (le_test "dividendYield")) in E3 as [S3 M3].
  apply (stage_ok _ (fun m s => v ← getitem s "safetyScore"; ge_num v (inject_Z m))
           (fun m s => exists v, s !! "safetyScore" = Some (VNum v) /\ (inject_Z m <= v)%Q))
    in E4 as [S4 M4]; [|intros; apply ge_test].
  apply (stage_ok _ _ _ _ _ sector_test) in E5 as [S5 M5].
  split.
  - by rewrite S5, S4, S3, S2.
  - intros s. rewrite M5, M4, M3, M2, M1. unfold passes. tauto.
Qed.

Lemma apply_filters_all (q : Query) (l : list Stock) :
  Forall (passes q) l -> apply_filters q l = Ok l.
Proof.
  intros Hall. unfold apply_filters.
  rewrite (stage_all _ _ _ _ category_test); simpl.
  2: { eapply Forall_impl; [exact Hall|]. intros s Hs. apply Hs. }
  rewrite (stage_all _ _ _ _ (ge_test "dividendYield")); simpl.
  2: { eapply Forall_impl; [exact Hall|]. intros s Hs. apply Hs. }
  rewrite (stage_all _ _ _ _ (le_test "dividendYield")); simpl.
  2: { eapply Forall_impl; [exact Hall|]. intros s Hs. apply Hs. }
  rewrite (stage_all _ (fun m s => v ← getitem s "safetyScore"; ge_num v (inject_Z m))
             (fun m s => exists v, s !! "safetyScore" = Some (VNum v)
                                   /\ (inject_Z m <= v)%Q)); simpl.
  2: { intros; apply ge_test. }
  2: { eapply Forall_impl; [exact Hall|]. intros s Hs. apply Hs. }
  apply (stage_all _ _ _ _ sector_test).
  eapply Forall_impl; [exact Hall|]. intros s Hs. apply Hs.
Qed.


Lemma keeps_iff {A} (P Q : A -> Prop) (l l' : list A) :
  (forall x, P x <-> Q x) -> keeps P l l' -> keeps Q l l'.
Proof.
  intros HPQ. induction 1 as [|x l l' Hx _ IH|x l l' Hx _ IH].
  - constructor.
  - apply keeps_keep; [by apply HPQ|done].
  - apply keeps_drop; [by rewrite <- HPQ|done].
Qed.

Lemma keeps_all {A} (P : A -> Prop) (l : list A) :
  (forall x, P x) -> keeps P l l.
Proof. intros HP. induction l; constructor; auto. Qed.

Lemma keeps_and {A} (P Q : A -> Prop) (l l1 l2 : list A) :
  keeps P l l1 -> keeps Q l1 l2 -> keeps (fun x => P x /\ Q x) l l2.
Proof.
  intros H1. revert l2. induction H1 as [|x l l1 Hx _ IH|x l l1 Hx _ IH]; intros l2 H2.
  - inversion H2; subst. constructor.
  - inversion H2; subst.
    + apply keeps_keep; [done|by apply IH].
    + apply keeps_drop; [tauto|by apply IH].
  - apply keeps_drop; [tauto|by apply IH].
Qed.

Lemma filterM_keeps {A} (p : A -> result bool) (l l' : list A) :
  filterM p l = Ok l' -> keeps (fun x => p x = Ok true) l l'.
Proof.
  revert l'. induction l as [|x l IH]; intros l'; cbn [filterM].
  - intros [= <-]. constructor.
  - destruct (p x) as [b|e] eqn:Hp; cbn [mbind result_bind]; [|done].
    destruct (filterM p l) as [rest|e]; cbn [mbind result_bind]; [|done].
    intros [= <-]. destruct b.
    + apply keeps_keep; [done|by apply IH].
    + apply keeps_drop; [congruence|by apply IH].
Qed.

Lemma stage_keeps {X} (o : option X) (p : X -> Stock -> result bool)
    (P : X -> Stock -> Prop) (l l' : list Stock) :
  (forall x s, p x s = Ok true <-> P x s) ->
  match o with Some x => filterM (p x) l | None => Ok l end = Ok l' ->
  keeps (fun s => forall x, o = Some x -> P x s) l l'.
Proof.
  intros HP. destruct o as [x|].
  - intros Hf%filterM_keeps. eapply keeps_iff; [|exact Hf].
    intros s. rewrite HP. split; [by intros ? ? [= <-]|by intros H; apply H].
  - intros [= <-]. by apply keeps_all.
Qed.

Lemma apply_filters_keeps (q : Query) (stocks filtered : list Stock) :
  apply_filters q stocks = Ok filtered -> keeps (passes q) stocks filtered.
Proof.
  unfold apply_filters.
  destruct (match given (category q) with Some c => _ | None => _ end)
    as [l1|] eqn:E1; simpl; [|done].
  destruct (match min_yield q with Some m => _ | None => _ end)
    as [l2|] eqn:E2; simpl; [|done].
  destruct (match max_yield q with Some m => _ | None => _ end)
    as [l3|] eqn:E3; simpl; [|done].
  destruct (match min_safety q with Some m => _ | None => _ end)
    as [l4|] eqn:E4; simpl; [|done].
  intros E5.
  apply (stage_keeps _ _ _ _ _ category_test) in E1.
  apply (stage_keeps _ _ _ _ _ (ge_test "dividendYield")) in E2.
  apply (stage_keeps _ _ _ _ _ (le_test "dividendYield")) in E3.
  apply (stage_keeps _ (fun m s => v ← getitem s "safetyScore"; ge_num v (inject_Z m))
           (fun m s => exists v, s !! "safetyScore" = Some (VNum v) /\ (inject_Z m <= v)%Q))
    in E4; [|intros; apply ge_test].
  apply (stage_keeps _ _ _ _ _ sector_test) in E5.
  pose proof (keeps_and _ _ _ _ _ (keeps_and _ _ _ _ _ (keeps_and _ _ _ _ _
                (keeps_and _ _ _ _ _ E1 E2) E3) E4) E5) as Hk.
  eapply keeps_iff; [|exact Hk]. intros s. unfold passes. cbv beta. tauto.
Qed.

(** X18.  On sectors that are ASCII strings, in the query and in the
    stocks, when the filters return the result is the list of stocks with
    exactly the records removed that fail a filter that is given: every
    record that passes is kept, as often as it occurs and in its place.  So
    the result is a sublist of the stocks and holds the stocks that pass. *)
Theorem apply_filters_sound_complete :
  forall (q : Query) (stocks filtered : list Stock),
    (forall c, given (sector q) = Some c -> isascii c = true) ->
    Forall (fun s : Stock => forall x, s !! "sector" = Some (VStr x) -> isascii x = true)
      stocks ->
    apply_filters q stocks = Ok filtered ->
    keeps (passes q) stocks filtered
    /\ sublist filtered stocks
    /\ (forall s, s ∈ filtered <-> s ∈ stocks /\ passes q s).
Proof.
  intros q stocks filtered _ _ Hf. split; [by apply apply_filters_keeps|].
  by apply apply_filters_ok.
Qed.

Lemma apply_filters_sound_complete_witness :
  let q := mkQuery None None None None (Some "energy") "rankScore" 10 in
  let a : Stock := {[ "sector" := VStr "Energy" ]} in
  let b : Stock := {[ "sector" := VStr "Utilities" ]} in
  (forall c, given (sector q) = Some c -> isascii c = true)
  /\ Forall (fun s : Stock => forall x, s !! "sector" = Some (VStr x) -> isascii x = true)
       [a; b; a]
  /\ apply_filters q [a; b; a] = Ok [a; a]
  /\ keeps (passes q) [a; b; a] [a; a].
Proof.
  cbv zeta.
  assert (forall c, given (sector (mkQuery None None None None (Some "energy")
                                     "rankScore" 10)) = Some c -> isascii c = true) as H1.
  { by intros c [= <-]. }
  assert (Forall (fun s : Stock => forall x, s !! "sector" = Some (VStr x) ->
                                             isascii x = true)
            [{[ "sector" := VStr "Energy" ]}; {[ "sector" := VStr "Utilities" ]};
             {[ "sector" := VStr "Energy" ]}]) as H2.
  { repeat constructor; by intros x [= <-]. }
  split; [exact H1|]. split; [exact H2|]. split; [reflexivity|].
  apply (apply_filters_sound_complete _ _ _ H1 H2 eq_refl).
Defined.

Lemma category_filter_missing (c : string) (l : list Stock) :
  Exists (fun s : Stock => s !! "category" = None) l ->
  filterM (fun s => v ← getitem s "category"; Ok (eq_str v c)) l = Raise KeyError.
Proof.
  induction l as [|s l IH]; [by intros ?%Exists_nil|].
  intros Hex. cbn [filterM].
  destruct (s !! "category") as [v|] eqn:E.
  - assert (getitem s "category" = Ok v) as -> by (unfold getitem; by rewrite E).
    apply Exists_cons in Hex as [?|Hex]; [congruence|]. by rewrite (IH Hex).
  - assert (getitem s "category" = Raise KeyError) as ->
      by (unfold getitem; by rewrite E).
    done.
Qed.

Lemma category_filter_none (c : string) (l : list Stock) :
  Forall (fun s : Stock => exists v, s !! "category" = Some v /\ v <> VStr c) l ->
  filterM (fun s => v ← getitem s "category"; Ok (eq_str v c)) l = Ok [].
Proof.
  induction 1 as [|s l (v & Hv & Hne) Hl IH]; [done|].
  cbn [filterM].
  assert (getitem s "category" = Ok v) as -> by (unfold getitem; by rewrite Hv).
  rewrite IH. simpl.
  destruct v as [|n|x|h]; simpl; try done.
  destruct (String.eqb_spec x c) as [->|?]; done.
Qed.


(** X19.  Without any filter (an empty category or sector string counts as
    none) the stocks come back unchanged; a category filter raises [KeyError]
    as soon as one stock has no category; and a category no stock has gives
    the empty list. *)
Theorem apply_filters_edges :
  forall (q : Query) (stocks : list Stock),
    (given (category q) = None -> min_yield q = None -> max_yield q = None ->
     min_safety q = None -> given (sector q) = None ->
       apply_filters q stocks = Ok stocks)
    /\ (forall c, given (category q) = Some c ->
         Exists (fun s : Stock => s !! "category" = None) stocks ->
         apply_filters q stocks = Raise KeyError)
    /\ (forall c, given (category q) = Some c ->
         Forall (fun s : Stock => exists v, s !! "category" = Some v /\ v <> VStr c)
           stocks ->
         apply_filters q stocks = Ok []).
Proof.
  intros q stocks. unfold apply_filters. split; [|split].
  - by intros -> -> -> -> ->.
  - intros c -> Hex. by rewrite category_filter_missing.
  - intros c -> Hall. rewrite category_filter_none by done. simpl.
    destruct (min_yield q), (max_yield q), (min_safety q), (given (sector q)); done.
Qed.

Lemma slice_to_length {A} (limit : Z) (l : list A) :
  length (slice_to limit l)
  = if (0 <=? limit)%Z then Nat.min (Z.to_nat limit) (length l)
    else (length l - Z.to_nat (- limit))%nat.
Proof.
  unfold slice_to. destruct (0 <=? limit)%Z; rewrite length_take; lia.
Qed.


(** X20.  In a response [total] counts the stocks that passed the filters,
    before the limit.  A limit that is not negative keeps at most that many
    stocks; a negative limit drops that many stocks from the end. *)
Theorem response_total_and_limit :
  forall (stocks : list Stock) (q : Query) (now : Z) (r : Response),
    apply_filters_and_sort stocks q now = Ok r ->
    exists filtered,
      apply_filters q stocks = Ok filtered
      /\ r_total r = length filtered
      /\ length (r_stocks r)
         = if (0 <=? limit q)%Z then Nat.min (Z.to_nat (limit q)) (r_total r)
           else (r_total r - Z.to_nat (- limit q))%nat.
Proof.
  intros stocks q now r. unfold apply_filters_and_sort.
  destruct (apply_filters q stocks) as [filtered|e]; simpl; [|done].
  destruct (sort _ _ filtered) as [sorted|e] eqn:Hsort; simpl; [|done].
  intros [= <-]. simpl. apply sort_ok in Hsort as [Hp _].
  exists filtered. split; [done|]. split; [symmetry; by apply Permutation_length|].
  apply slice_to_length.
Qed.

Lemma response_total_and_limit_witness :
  apply_filters_and_sort [cut_stock; bare_stock; named_stock]
    (mkQuery None None None None None "growthRate" (-1)) 0
  = Ok (mkResponse [bare_stock; named_stock] 3 (Some 0%Z) None)
  /\ exists filtered,
       apply_filters (mkQuery None None None None None "growthRate" (-1))
         [cut_stock; bare_stock; named_stock] = Ok filtered
       /\ 3%nat = length filtered
       /\ length [bare_stock; named_stock]
          = if (0 <=? -1)%Z then Nat.min (Z.to_nat (-1)) 3
            else (3 - Z.to_nat (- -1))%nat.
Proof.
  split; [reflexivity|].
  exact (response_total_and_limit [cut_stock; bare_stock; named_stock]
           (mkQuery None None None None None "growthRate" (-1)) 0
           (mkResponse [bare_stock; named_stock] 3 (Some 0%Z) None) eq_refl).
Defined.

Lemma value_le_py_lt (a b : value) : value_le a b -> py_lt b a = Ok false.
Proof.
  destruct a, b; simpl; try done.
  - intros H. f_equal. unfold Scoring.Qltb. apply negb_false_iff.
    by apply Qle_bool_iff.
  - by intros ->.
Qed.

(** Sorting a list that is already in order returns it. *)
Lemma sort_sorted_id (reverse : bool) (key : Stock -> value) (l : list Stock) :
  Sorted (fun x y => in_order reverse (key x) (key y)) l ->
  sort reverse key l = Ok l.
Proof.
  induction 1 as [|x l Hs IH Hhd]; simpl; [done|].
  rewrite IH. simpl. destruct Hhd as [|y l Hxy]; simpl; [done|].
  unfold in_order in Hxy. destruct reverse; apply value_le_py_lt in Hxy;
    by rewrite Hxy.
Qed.

Lemma Sorted_all {A} (R : A -> A -> Prop) (l : list A) :
  (forall x y, x ∈ l -> y ∈ l -> R x y) -> Sorted R l.
Proof.
  induction l as [|x l IH]; intros H; [constructor|].
  constructor.
  - apply IH. intros a b Ha Hb. apply H; by right.
  - destruct l as [|y l]; constructor. apply H; [by left|right; by left].
Qed.


(** X21.  With a limit that is not negative, running the same query on the
    stocks of its own response returns these stocks unchanged. *)
Theorem query_idempotent :
  forall (stocks : list Stock) (q : Query) (now now' : Z) (r : Response),
    (0 <= limit q)%Z ->
    apply_filters_and_sort stocks q now = Ok r ->
    apply_filters_and_sort (r_stocks r) q now'
    = Ok (mkResponse (r_stocks r) (length (r_stocks r)) (Some now') None).
Proof.
  intros stocks q now now' r Hlim. unfold apply_filters_and_sort at 1.
  destruct (apply_filters q stocks) as [filtered|e] eqn:Hf; simpl; [|done].
  destruct (sort _ _ filtered) as [sorted|e] eqn:Hsort; simpl; [|done].
  intros [= <-]. simpl. apply sort_ok in Hsort as [Hp Hs].
  apply apply_filters_ok in Hf as [_ Hmem].
  unfold slice_to. destruct (Z.leb_spec 0 (limit q)); [|lia].
  set (out := take (Z.to_nat (limit q)) sorted).
  assert (Forall (passes q) out) as Hpass.
  { apply Forall_forall. intros s Hs'. apply Hmem. rewrite Hp.
    apply (subseteq_take (Z.to_nat (limit q)) sorted s Hs'). }
  unfold apply_filters_and_sort. rewrite (apply_filters_all _ _ Hpass). simpl.
  rewrite sort_sorted_id by by apply Sorted_take. simpl.
  unfold slice_to. destruct (Z.leb_spec 0 (limit q)); [|lia].
  unfold out. by rewrite take_take, Nat.min_id.
Qed.

Lemma query_idempotent_witness :
  (0 <= 2)%Z
  /\ apply_filters_and_sort [cut_stock; bare_stock; named_stock]
       (mkQuery None None None None None "growthRate" 2) 0
     = Ok (mkResponse [bare_stock; named_stock] 3 (Some 0%Z) None)
  /\ apply_filters_and_sort [bare_stock; named_stock]
       (mkQuery None None None None None "growthRate" 2) 5
     = Ok (mkResponse [bare_stock; named_stock] 2 (Some 5%Z) None).
Proof.
  split; [lia|]. split; [reflexivity|].
  exact (query_idempotent [cut_stock; bare_stock; named_stock]
           (mkQuery None None None None None "growthRate" 2) 0 5
           (mkResponse [bare_stock; named_stock] 3 (Some 0%Z) None)
           ltac:(simpl; lia) eq_refl).
Defined.


(** X22.  Sorting on a field that no stock has keeps the stocks that pass
    the filters in their order: every key is 0 and the sort is stable. *)
Theorem unknown_sort_field_keeps_order :
  forall (stocks filtered : list Stock) (q : Query) (now : Z),
    apply_filters q stocks = Ok filtered ->
    Forall (fun s : Stock => s !! sort_by q = None) stocks ->
    apply_filters_and_sort stocks q now
    = Ok (mkResponse (slice_to (limit q) filtered) (length filtered) (Some now) None).
Proof.
  intros stocks filtered q now Hf Hnone. unfold apply_filters_and_sort.
  rewrite Hf. simpl. rewrite sort_sorted_id; [done|].
  apply apply_filters_ok in Hf as [_ Hmem]. rewrite Forall_forall in Hnone.
  apply Sorted_all. intros x y Hx Hy.
  apply Hmem in Hx as [Hx _]. apply Hmem in Hy as [Hy _].
  unfold sort_key. rewrite (Hnone x Hx), (Hnone y Hy).
  unfold in_order. destruct (reverse_order (sort_by q)); simpl; Lqa.lra.
Qed.

Lemma unknown_sort_field_keeps_order_witness :
  apply_filters (by_field "beta") [cut_stock; bare_stock; named_stock]
  = Ok [cut_stock; bare_stock; named_stock]
  /\ Forall (fun s : Stock => s !! "beta" = None) [cut_stock; bare_stock; named_stock]
  /\ apply_filters_and_sort [cut_stock; bare_stock; named_stock] (by_field "beta") 0
     = Ok (mkResponse [cut_stock; bare_stock; named_stock] 3 (Some 0%Z) None).
Proof.
  assert (Forall (fun s : Stock => s !! "beta" = None)
            [cut_stock; bare_stock; named_stock]) as Hall by (by repeat constructor).
  split; [reflexivity|]. split; [exact Hall|].
  exact (unknown_sort_field_keeps_order [cut_stock; bare_stock; named_stock]
           [cut_stock; bare_stock; named_stock] (by_field "beta") 0 eq_refl Hall).
Defined.
End FilterFacts.

(** ** The other endpoints *)

Module EndpointFacts.
Import Cache History Filter Endpoints CacheFacts SortFacts FilterFacts.

(** *** Batches *)

Lemma batch_count (n : nat) :
  let m := ((n + batch_size - 1) / batch_size)%nat in
  (n <= m * batch_size)%nat /\ (0 < n -> (m - 1) * batch_size < n)%nat
  /\ (n = 0%nat -> m = 0%nat).
Proof.
  unfold batch_size. cbv zeta.
  pose proof (Nat.div_mod (n + 20 - 1) 20 ltac:(lia)).
  pose proof (Nat.mod_upper_bound (n + 20 - 1) 20 ltac:(lia)).
  repeat split; lia.
Qed.

Lemma batch_starts_length (n : nat) :
  length (batch_starts n) = ((n + batch_size - 1) / batch_size)%nat.
Proof. unfold batch_starts. by rewrite length_map, length_seq. Qed.

Lemma map_lookup {A B} (f : A -> B) (l : list A) (k : nat) :
  map f l !! k = f <$> (l !! k).
Proof. exact (list_lookup_fmap f l k). Qed.

Lemma batch_starts_lookup (n k : nat) :
  (k < length (batch_starts n))%nat ->
  batch_starts n !! k = Some (k * batch_size)%nat.
Proof.
  rewrite batch_starts_length. intros Hk. unfold batch_starts.
  rewrite map_lookup, lookup_seq_lt by done. done.
Qed.


(** X23.  The batches of a run are the consecutive slices of 20 tickers:
    together they are the ticker list, every batch has between 1 and 20
    tickers and all but the last have 20.  [refresh_data_background] sleeps
    after every batch but the last, [seed_data] after every batch. *)
Theorem refresh_batches :
  forall tickers : list string,
    let n := length tickers in
    concat (batches tickers) = tickers
    /\ length (batches tickers) = ((n + 19) / 20)%nat
    /\ length (refresh_sleeps n) = length (batches tickers)
    /\ length (seed_sleeps n) = length (batches tickers)
    /\ forall k batch,
         batches tickers !! k = Some batch ->
         batch = take 20 (drop (20 * k) tickers)
         /\ (1 <= length batch <= 20)%nat
         /\ (S k < length (batches tickers) -> length batch = 20%nat)
         /\ refresh_sleeps n !! k
            = Some (bool_decide (S k < length (batches tickers))%nat)
         /\ seed_sleeps n !! k = Some true.
Proof.
  intros tickers n.
  assert (length (batches tickers) = ((n + 19) / 20)%nat) as Hlen.
  { unfold batches. rewrite length_map, batch_starts_length. unfold batch_size.
    subst n. f_equal. lia. }
  destruct (batch_count n) as (Hcover & Hlast & _). fold n in Hcover.
  split.
  { unfold batches. rewrite <- flat_map_concat_map. unfold batch_starts.
    apply (batches_cover (fun l => l)); [done|done|exact Hcover]. }
  split; [exact Hlen|].
  split. { unfold refresh_sleeps, batches. by rewrite !length_map. }
  split. { unfold seed_sleeps, batches. by rewrite !length_map. }
  intros k batch Hk.
  assert (k < length (batch_starts n))%nat as Hkl.
  { apply lookup_lt_Some in Hk. unfold batches in Hk. by rewrite length_map in Hk. }
  pose proof (batch_starts_lookup n k Hkl) as Hstart.
  unfold batches in Hk. rewrite map_lookup in Hk.
  fold n in Hk. rewrite Hstart in Hk. simpl in Hk. injection Hk as <-.
  rewrite batch_starts_length in Hkl. unfold batch_size in *.
  replace (k * 20)%nat with (20 * k)%nat by lia.
  pose proof (Nat.div_mod (n + 20 - 1) 20 ltac:(lia)) as Hdm.
  pose proof (Nat.mod_upper_bound (n + 20 - 1) 20 ltac:(lia)) as Hub.
  assert (length (batches tickers) = ((n + 20 - 1) / 20)%nat) as Hlen'.
  { rewrite Hlen. f_equal. lia. }
  split; [done|].
  rewrite length_take, length_drop. fold n.
  split; [lia|]. split; [lia|].
  split.
  - unfold refresh_sleeps. rewrite map_lookup.
    rewrite batch_starts_lookup by (rewrite batch_starts_length; unfold batch_size; lia).
    simpl. f_equal. unfold batch_size.
    case_bool_decide as Hd; [apply Nat.ltb_lt|apply Nat.ltb_ge]; lia.
  - unfold seed_sleeps. rewrite map_lookup.
    rewrite batch_starts_lookup by (rewrite batch_starts_length; unfold batch_size; lia).
    done.
Qed.

(** *** Tickers in requests *)

Lemma upper_ascii_idem (c : ascii) : upper_ascii (upper_ascii c) = upper_ascii c.
Proof. destruct c as [[] [] [] [] [] [] [] []]; vm_compute; reflexivity. Qed.

Lemma upper_lower_ascii (c : ascii) : upper_ascii (lower_ascii c) = upper_ascii c.
Proof. destruct c as [[] [] [] [] [] [] [] []]; vm_compute; reflexivity. Qed.

Lemma upper_idem (s : string) : upper (upper s) = upper s.
Proof. induction s as [|c s IH]; simpl; [done|]. by rewrite upper_ascii_idem, IH. Qed.

Lemma upper_lower (s : string) : upper (lower s) = upper s.
Proof. induction s as [|c s IH]; simpl; [done|]. by rewrite upper_lower_ascii, IH. Qed.


(** X24.  For a request of ASCII characters [get_stock_trends] looks the
    ticker up by its upper-case form: the request gives the same reply
    written in upper case or in lower case, the ticker in the reply is the
    upper-case one, the reply is the 404 exactly when the store has no series
    under it, and a series stored under a key with a lower-case letter a-z is
    never returned. *)
Theorem get_stock_trends_by_upper_case :
  forall (t : string) (st : Store),
    isascii t = true ->
    get_stock_trends (upper t) st = get_stock_trends t st
    /\ get_stock_trends (lower t) st = get_stock_trends t st
    /\ (forall k series,
          get_stock_trends t st = Found (k, series) <->
          k = upper t /\ load_historical_data st !! k = Some series)
    /\ ((exists d, get_stock_trends t st = NotFound d) <->
        load_historical_data st !! upper t = None)
    /\ (forall k series,
          upper k <> k -> get_stock_trends t st <> Found (k, series)).
Proof.
  intros t st _. unfold get_stock_trends. cbv zeta.
  rewrite upper_idem, upper_lower.
  split; [done|]. split; [done|].
  split; [|split].
  - intros k series. destruct (load_historical_data st !! upper t) as [s|] eqn:E.
    + split.
      * intros [= <- <-]. done.
      * intros [-> H]. rewrite E in H. by injection H as ->.
    + split; [done|]. intros [-> H]. congruence.
  - destruct (load_historical_data st !! upper t); split; try done.
    + by intros [d ?].
    + intros _. by eexists.
  - intros k series Hk.
    destruct (load_historical_data st !! upper t); [|done].
    intros [= <- _]. by rewrite upper_idem in Hk.
Qed.

Lemma get_stock_trends_by_upper_case_witness :
  let st := mkStore None (Some {[ "KO" := [mkPoint 0 (VNum 3) (VNum 60) (VNum 1) (VNum 70)];
                                  "ko" := [] ]}) in
  isascii "Ko" = true
  /\ get_stock_trends "ko" st = get_stock_trends "Ko" st
  /\ get_stock_trends "Ko" st
     = Found ("KO", [mkPoint 0 (VNum 3) (VNum 60) (VNum 1) (VNum 70)]).
Proof.
  cbv zeta. split; [reflexivity|].
  destruct (get_stock_trends_by_upper_case "Ko"
              (mkStore None (Some {[ "KO" := [mkPoint 0 (VNum 3) (VNum 60) (VNum 1) (VNum 70)];
                                     "ko" := [] ]})) eq_refl)
    as (_ & Hlower & Hfound & _).
  split; [exact Hlower|]. apply Hfound. split; reflexivity.
Defined.

Lemma SP500_TICKERS_upper : Forall (fun t => upper t = t) SP500_TICKERS.
Proof. apply (bool_decide_unpack _). vm_compute. reflexivity. Qed.


(** X25.  [get_stock_detail] answers from the builder alone: it is found
    exactly when the builder returns a record for the upper-case ticker, its
    ticker is the upper-case one, and its trend is the series
    [get_stock_trends] would return, or the empty list where that endpoint
    replies 404. *)
Theorem get_stock_detail_fresh_record :
  forall (provider : string -> option (string -> value)) (t : string) (st : Store),
    match get_stock_detail provider t st with
    | Found (data, trend) =>
        (exists fields, provider (upper t) = Some fields
           /\ data = metrics_record (upper t) fields)
        /\ data !! "ticker" = Some (VStr (upper t))
        /\ trend = match get_stock_trends t st with
                   | Found (_, series) => series
                   | _ => []
                   end
    | NotFound _ => provider (upper t) = None
    | Failed _ => False
    end.
Proof.
  intros provider t st. unfold get_stock_detail, get_stock_trends,
    calculate_dividend_metrics. cbv zeta.
  destruct (provider (upper t)) as [fields|] eqn:Hp; simpl; [|done].
  split; [by exists fields|]. split.
  - unfold metrics_record. by rewrite lookup_insert_eq || (cbn; rewrite lookup_insert_eq).
  - by destruct (load_historical_data st !! upper t).
Qed.




(** *** Sectors *)

Lemma string_ltb_total (x y : string) :
  x <> y -> String.ltb y x = false -> String.ltb x y = true.
Proof.
  unfold String.ltb. intros Hne. rewrite (String.compare_antisym x y).
  destruct (String.compare y x) eqn:E; simpl; try done.
  rewrite String.compare_antisym in E.
  destruct (String.compare x y) eqn:E'; try done.
  by apply String.compare_eq_iff in E'.
Qed.

Lemma filter_VStr (x : string) (set : list string) :
  filter (fun w => py_eq (VStr x) w = false) (map VStr set)
  = map VStr (filter (fun w => w <> x) set).
Proof.
  induction set as [|y set IH]; [done|].
  cbn [map]. rewrite !filter_cons, IH. cbn [py_eq].
  destruct (String.eqb_spec x y) as [->|Hne].
  - rewrite decide_False by done. rewrite decide_False; [done|]. intros H. by apply H.
  - rewrite decide_True by done. rewrite decide_True by congruence. done.
Qed.

Lemma to_set_strings (names : list string) :
  exists set : list string,
    to_set (map VStr names) = Ok (map VStr set)
    /\ NoDup set /\ forall x, x ∈ set <-> x ∈ names.
Proof.
  induction names as [|x names (set & Hset & Hnd & Hel)]; cbn [map to_set].
  - exists []. split; [done|]. split; [constructor|done].
  - rewrite Hset. cbn [mbind result_bind].
    exists (x :: filter (fun w => w <> x) set).
    split; [|split].
    + by rewrite filter_VStr.
    + constructor; [|by apply NoDup_filter].
      rewrite list_elem_of_filter. by intros [? _].
    + intros y. rewrite !elem_of_cons, list_elem_of_filter, Hel.
      destruct (decide (y = x)); tauto.
Qed.

Lemma insert_value_strings (x : string) (l : list string) :
  exists l', insert_value (VStr x) (map VStr l) = Ok (map VStr l')
    /\ Permutation (x :: l) l'
    /\ (Sorted (fun a b => String.ltb b a = false) l ->
        Sorted (fun a b => String.ltb b a = false) l')
    /\ (forall z, String.ltb x z = false ->
          HdRel (fun a b => String.ltb b a = false) z l ->
          HdRel (fun a b => String.ltb b a = false) z l').
Proof.
  induction l as [|y l (l' & Hins & Hp & Hs & Hh)]; simpl.
  - exists [x]. split; [done|]. split; [done|]. split; [by repeat constructor|].
    intros z Hz _. by constructor.
  - destruct (String.ltb y x) eqn:Hyx.
    + rewrite Hins. simpl. exists (y :: l'). split; [done|].
      split; [by rewrite <- Hp, Permutation_swap|].
      split.
      * intros Hsorted. inversion Hsorted as [|? ? Hsl Hhd]; subst.
        constructor; [by apply Hs|]. apply Hh; [|done].
        by apply string_ltb_asym.
      * intros z Hz Hhd. inversion Hhd; subst. by constructor.
    + exists (x :: y :: l). split; [done|]. split; [done|]. split.
      * intros Hsorted. constructor; [done|]. by constructor.
      * intros z Hz _. by constructor.
Qed.

Lemma sort_list_strings (l : list string) :
  exists l', sort_list (map VStr l) = Ok (map VStr l')
    /\ Permutation l l' /\ Sorted (fun a b => String.ltb b a = false) l'.
Proof.
  induction l as [|x l (l1 & Hsort & Hp & Hs)]; simpl.
  - exists []. split; [done|]. split; [done|constructor].
  - rewrite Hsort. simpl.
    destruct (insert_value_strings x l1) as (l' & Hins & Hp' & Hs' & _).
    exists l'. split; [done|]. split; [by rewrite <- Hp', Hp|by apply Hs'].
Qed.

Lemma Sorted_strict (l : list string) :
  NoDup l -> Sorted (fun a b => String.ltb b a = false) l ->
  Sorted (fun a b => String.ltb a b = true) l.
Proof.
  intros Hnd Hs. induction Hs as [|x l Hs IH Hhd]; [constructor|].
  apply NoDup_cons in Hnd as [Hx Hnd]. constructor; [by apply IH|].
  destruct Hhd as [|y l Hxy]; constructor.
  apply string_ltb_total; [|done]. intros ->. apply Hx. by left.
Qed.

(** The values [get_sectors] collects are the non-empty sector names when
    every sector is a string or [None]. *)
Lemma sector_values_strings (stocks : list Stock) :
  Forall (fun s : Stock => match s !! "sector" with
                           | Some (VNum _) | Some (VList _) => False
                           | _ => True
                           end) stocks ->
  exists names, sector_values stocks = map VStr names
    /\ forall x, x ∈ names <->
         x <> "" /\ exists s, s ∈ stocks /\ s !! "sector" = Some (VStr x).
Proof.
  unfold sector_values. induction 1 as [|s stocks Hs Hall (names & Hn & Hel)].
  - exists []. split; [done|]. intros x. rewrite elem_of_nil.
    split; [done|]. intros (_ & s & Hin & _). by apply elem_of_nil in Hin.
  - cbn [omap list_omap]. rewrite Hn.
    assert (forall x, (x <> "" /\ exists s0, s0 ∈ s :: stocks /\ s0 !! "sector" = Some (VStr x))
              <-> (x <> "" /\ s !! "sector" = Some (VStr x)) \/ x ∈ names) as Hsplit.
    { intros x. rewrite Hel. split.
      - intros (Hx & s0 & Hin & Hs0). apply elem_of_cons in Hin as [->|Hin]; [by left|].
        right. split; [done|]. by exists s0.
      - intros [[Hx Hsx]|(Hx & s0 & Hin & Hs0)].
        + split; [done|]. exists s. split; [by left|done].
        + split; [done|]. exists s0. split; [by right|done]. }
    destruct (s !! "sector") as [[| |x|]|] eqn:E; try done; simpl.
    + exists names. split; [done|]. intros x. rewrite Hsplit. split; [by right|].
      by intros [[_ ?]|?].
    + destruct (String.eqb_spec x "") as [->|Hne]; simpl.
      * exists names. split; [done|]. intros y. rewrite Hsplit. split; [by right|].
        intros [[Hy [= <-]]|?]; done.
      * exists (x :: names). split; [done|]. intros y. rewrite Hsplit, elem_of_cons.
        split.
        -- intros [->|?]; [by left|by right].
        -- intros [[_ [= <-]]|?]; [by left|by right].
    + exists names. split; [done|]. intros x. rewrite Hsplit. split; [by right|].
      by intros [[_ ?]|?].
Qed.


(** X27.  When every sector in the snapshot is a string or [None],
    [get_sectors] returns the sector names of the snapshot that are not
    empty, each once, in strictly ascending order; without a usable snapshot
    it returns the empty list. *)
Theorem get_sectors_sorted_distinct :
  forall (now : Z) (st : Store),
    (forall cached, load_cached_snapshot now st = Some cached ->
       Forall (fun s : Stock => match s !! "sector" with
                                | Some (VNum _) | Some (VList _) => False
                                | _ => True
                                end) (stocks cached)) ->
    exists names : list string,
      get_sectors now st = Ok (map VStr names)
      /\ Sorted (fun a b => String.ltb a b = true) names
      /\ NoDup names
      /\ forall x, x ∈ names <->
           x <> "" /\ exists cached s,
             load_cached_snapshot now st = Some cached
             /\ s ∈ stocks cached /\ s !! "sector" = Some (VStr x).
Proof.
  intros now st Hstr. unfold get_sectors.
  destruct (load_cached_snapshot now st) as [cached|] eqn:Hload.
  - destruct (sector_values_strings (stocks cached) (Hstr cached eq_refl))
      as (names & Hn & Hel).
    rewrite Hn.
    destruct (to_set_strings names) as (set & -> & Hnd & Hset). simpl.
    destruct (sort_list_strings set) as (l' & -> & Hp & Hs).
    exists l'. split; [done|].
    assert (NoDup l') as Hnd' by (by rewrite <- Hp).
    split; [by apply Sorted_strict|]. split; [done|].
    intros x. rewrite <- Hp, Hset, Hel. split.
    + intros (Hx & s & Hin & Hsx). split; [done|]. by exists cached, s.
    + intros (Hx & c & s & [= <-] & Hin & Hsx). split; [done|]. by exists s.
  - exists []. split; [done|]. split; [constructor|]. split; [constructor|].
    intros x. rewrite elem_of_nil. split; [done|]. by intros (_ & c & s & ? & _).
Qed.

Lemma get_sectors_sorted_distinct_witness :
  let stock (x : value) : Stock := {[ "sector" := x ]} in
  let st := mkStore (Some (mkSnapshot 0
              [stock (VStr "Utilities"); stock VNone; stock (VStr "Energy");
               stock (VStr ""); ∅; stock (VStr "Utilities")])) None in
  exists names : list string,
    get_sectors 0 st = Ok (map VStr names)
    /\ Sorted (fun a b => String.ltb a b = true) names.
Proof.
  cbv zeta.
  destruct (get_sectors_sorted_distinct 0
    (mkStore (Some (mkSnapshot 0
       [{[ "sector" := VStr "Utilities" ]}; {[ "sector" := VNone ]};
        {[ "sector" := VStr "Energy" ]}; {[ "sector" := VStr "" ]}; ∅;
        {[ "sector" := VStr "Utilities" ]}])) None))
    as (names & Hget & Hs & _).
  - intros cached [= <-]. simpl. repeat constructor.
  - exists names. split; [exact Hget|exact Hs].
Defined.

(** *** Top stocks *)

Lemma Qltb_proper (a a' b b' : Q) :
  (a == a')%Q -> (b == b')%Q -> Scoring.Qltb a b = Scoring.Qltb a' b'.
Proof.
  intros Ha Hb. destruct (Scoring.Qltb a' b') eqn:E.
  - apply ScoringFacts.Qltb_lt. apply ScoringFacts.Qltb_lt in E. by rewrite Ha, Hb.
  - apply ScoringFacts.Qltb_ge. apply ScoringFacts.Qltb_ge in E. by rewrite Ha, Hb.
Qed.

Lemma insert_sorted_ext (reverse : bool) (k1 k2 : Stock -> value) (x : Stock)
    (l : list Stock) :
  (forall a b, a ∈ x :: l -> b ∈ x :: l -> py_lt (k1 a) (k1 b) = py_lt (k2 a) (k2 b)) ->
  insert_sorted reverse k1 x l = insert_sorted reverse k2 x l.
Proof.
  induction l as [|y l IH]; intros Hk; [done|].
  cbn [insert_sorted].
  rewrite (Hk x y), (Hk y x), IH; rewrite ?elem_of_cons; auto.
  intros a b Ha Hb. apply Hk; rewrite !elem_of_cons in *; tauto.
Qed.

Lemma sort_ext (reverse : bool) (k1 k2 : Stock -> value) (l : list Stock) :
  (forall a b, a ∈ l -> b ∈ l -> py_lt (k1 a) (k1 b) = py_lt (k2 a) (k2 b)) ->
  sort reverse k1 l = sort reverse k2 l.
Proof.
  induction l as [|x l IH]; intros Hk; [done|].
  cbn [sort]. rewrite <- IH by (intros a b Ha Hb; apply Hk; by right).
  destruct (sort reverse k1 l) as [sorted|e] eqn:Hs; [|done].
  cbn [mbind result_bind]. apply insert_sorted_ext.
  apply sort_ok in Hs as [Hp _].
  intros a b Ha Hb. apply Hk; rewrite elem_of_cons, Hp, <- elem_of_cons; done.
Qed.

Lemma rank_keys (a b : Stock) (x y : Q) :
  a !! "rankScore" = Some (VNum x) -> b !! "rankScore" = Some (VNum y) ->
  py_lt (default VNone (a !! "rankScore")) (default VNone (b !! "rankScore"))
  = py_lt (sort_key "rankScore" a) (sort_key "rankScore" b).
Proof.
  intros Ha Hb. unfold sort_key. rewrite Ha, Hb. simpl.
  destruct (Qeq_bool x 0) eqn:Ex, (Qeq_bool y 0) eqn:Ey; simpl; f_equal;
    try apply Qeq_bool_eq in Ex; try apply Qeq_bool_eq in Ey;
    apply Qltb_proper; done.
Qed.

Lemma rank_check (l : list Stock) :
  Forall (fun s : Stock => is_Some (s !! "rankScore")) l ->
  foldM (fun (_ : ()) (s : Stock) => _ ← getitem s "rankScore"; Ok ()) () l = Ok ().
Proof.
  induction 1 as [|s l [v Hv] Hl IH]; [done|].
  cbn [foldM].
  assert (getitem s "rankScore" = Ok v) as -> by (unfold getitem; by rewrite Hv).
  cbn [mbind result_bind]. exact IH.
Qed.

Lemma rank_check_ok (l : list Stock) (u : ()) :
  foldM (fun (_ : ()) (s : Stock) => _ ← getitem s "rankScore"; Ok ()) () l = Ok u ->
  Forall (fun s : Stock => is_Some (s !! "rankScore")) l.
Proof.
  induction l as [|s l IH]; [constructor|].
  cbn [foldM].
  destruct (s !! "rankScore") as [v|] eqn:E.
  - intros H. constructor; [by exists v|]. apply IH.
    assert (getitem s "rankScore" = Ok v) as Hg by (unfold getitem; by rewrite E).
    by rewrite Hg in H.
  - assert (getitem s "rankScore" = Raise KeyError) as -> by (unfold getitem; by rewrite E).
    done.
Qed.


(** X28.  [get_top_stocks] raises [TypeError] when there is no usable
    snapshot or the snapshot has no stocks.  When it returns, the stocks come
    from a usable snapshot, each has a rank score, they are in descending
    order of rank score, and the reply carries the snapshot's [fetchedAt],
    which is less than 24 hours old. *)
Theorem get_top_stocks_outcomes :
  forall (count : Z) (category : option string) (now : Z) (st : Store),
    ((load_cached_snapshot now st = None
      \/ exists cached, load_cached_snapshot now st = Some cached
                        /\ stocks cached = []) ->
     get_top_stocks count category now st = Raise TypeError)
    /\ (forall out ts,
          get_top_stocks count category now st = Ok (out, ts) ->
          exists cached,
            load_cached_snapshot now st = Some cached
            /\ ts = fetchedAt cached
            /\ (now - ts < hours 24)%Z
            /\ (forall s, s ∈ out -> s ∈ stocks cached /\ is_Some (s !! "rankScore"))
            /\ Sorted (fun a b => value_le (default VNone (b !! "rankScore"))
                                   (default VNone (a !! "rankScore"))) out).
Proof.
  intros count category now st. unfold get_top_stocks. split.
  - intros [->|(cached & -> & ->)]; done.
  - intros out ts. destruct (load_cached_snapshot now st) as [cached|] eqn:Hload; [|done].
    destruct (stocks cached) as [|s0 l0] eqn:Hst; [done|].
    destruct (match given category with
              | Some c => filterM (fun s => v ← getitem s "category"; Ok (eq_str v c)) (s0 :: l0)
              | None => Ok (s0 :: l0)
              end) as [filtered|e] eqn:Hf; [|done].
    cbn [mbind result_bind].
    destruct (foldM _ () filtered) as [u|e] eqn:Hchk; [|done].
    cbn [mbind result_bind].
    destruct (sort true _ filtered) as [sorted|e] eqn:Hsort; [|done].
    cbn [mbind result_bind]. intros [= <- <-].
    exists cached. split; [done|]. split; [done|].
    split. { apply load_cached_snapshot_Some in Hload. tauto. }
    apply sort_ok in Hsort as [Hp Hs].
    apply rank_check_ok in Hchk.
    assert (forall z, z ∈ filtered -> z ∈ s0 :: l0) as Hsub.
    { destruct (given category).
      - apply filterM_ok in Hf as [_ Hel]. intros z Hz. by apply Hel in Hz as [? _].
      - by injection Hf as <-. }
    split.
    + intros z Hin.
      assert (z ∈ filtered) as Hin'.
      { rewrite Hp. unfold slice_to in Hin.
        destruct (0 <=? count)%Z; by apply subseteq_take in Hin. }
      split; [rewrite Hst; by apply Hsub|]. rewrite Forall_forall in Hchk. by apply Hchk.
    + exact (Sorted_slice_to _ _ _ Hs).
Qed.


(** X29.  On a snapshot whose stocks all have a number as rank score,
    [get_top_stocks] returns the stocks the list endpoint returns for the
    same category and limit, sorted on the rank score, but with the
    snapshot's [fetchedAt] in place of the time of the query. *)
Theorem get_top_stocks_agrees_with_list :
  forall (count : Z) (category : option string) (now now_reply : Z) (st : Store)
    (cached : Snapshot),
    load_cached_snapshot now st = Some cached ->
    stocks cached <> [] ->
    Forall (fun s : Stock => exists x, s !! "rankScore" = Some (VNum x)) (stocks cached) ->
    get_top_stocks count category now st
    = match snd (get_dividend_stocks false
                   (mkQuery category None None None None "rankScore" count)
                   now now_reply st) with
      | Ok r => Ok (r_stocks r, fetchedAt cached)
      | Raise e => Raise e
      end.
Proof.
  intros count category now now' st cached Hload Hne Hnum.
  unfold get_top_stocks, get_dividend_stocks. rewrite Hload. cbn [negb snd].
  destruct (stocks cached) as [|s0 l0] eqn:Hst; [done|].
  unfold apply_filters_and_sort, apply_filters.
  cbn [Cache.category min_yield max_yield min_safety sector sort_by limit given].
  destruct (match given category with
            | Some c => filterM (fun s => v ← getitem s "category"; Ok (eq_str v c)) (s0 :: l0)
            | None => Ok (s0 :: l0)
            end) as [filtered|e] eqn:Hf; [|done].
  cbn [mbind result_bind].
  assert (Forall (fun s : Stock => exists x, s !! "rankScore" = Some (VNum x)) filtered)
    as Hnum'.
  { rewrite Forall_forall in Hnum. apply Forall_forall. intros s Hs. apply Hnum.
    destruct (given category).
    - apply filterM_ok in Hf as [_ Hel]. by apply Hel in Hs as [? _].
    - by injection Hf as <-. }
  rewrite rank_check by (eapply Forall_impl; [exact Hnum'|]; intros s [x ->]; by eexists).
  cbn [mbind result_bind].
  rewrite (sort_ext true _ (sort_key "rankScore") filtered).
  - change (reverse_order "rankScore") with true.
    by destruct (sort true (sort_key "rankScore") filtered).
  - rewrite Forall_forall in Hnum'. intros a b Ha Hb.
    destruct (Hnum' a Ha) as [x Hx], (Hnum' b Hb) as [y Hy].
    by apply (rank_keys a b x y).
Qed.

Lemma get_top_stocks_agrees_with_list_witness :
  let stock (r : Q) : Stock := {[ "rankScore" := VNum r ]} in
  let cached := mkSnapshot 0 [stock 10%Q; stock 0%Q; stock 30%Q] in
  let st := mkStore (Some cached) None in
  load_cached_snapshot 5 st = Some cached
  /\ stocks cached <> []
  /\ get_top_stocks 2 None 5 st
     = match snd (get_dividend_stocks false
                    (mkQuery None None None None None "rankScore" 2) 5 7 st) with
       | Ok r => Ok (r_stocks r, 0%Z)
       | Raise e => Raise e
       end.
Proof.
  cbv zeta. split; [reflexivity|]. split; [done|].
  apply (get_top_stocks_agrees_with_list 2 None 5 7
           (mkStore (Some (mkSnapshot 0
              [{[ "rankScore" := VNum 10 ]}; {[ "rankScore" := VNum 0 ]};
               {[ "rankScore" := VNum 30 ]}])) None)
           (mkSnapshot 0
              [{[ "rankScore" := VNum 10 ]}; {[ "rankScore" := VNum 0 ]};
               {[ "rankScore" := VNum 30 ]}])).
  - reflexivity.
  - done.
  - repeat constructor; by eexists.
Defined.

End EndpointFacts.
